(** * Form validation, submission and notifications

    A shallow embedding of the form utilities of js/forms.js and of the
    notification of the page script that follows it in the same source
    file: the two shape predicates [validateEmail] and [validatePhone],
    the per-field validator [validateField] with the annotations
    [showFieldError] and [clearFieldError], the submit listener that
    [handleFormSubmission] registers, and [showNotification] in its
    form-feedback and page-feedback variants.

    Conventions.
    - A JavaScript string is the list of its UTF-16 code units, each a
      number of type [N].
    - A regular expression literal is a value of [regex]; [test] is
      whole-string matching, which is what [RegExp.prototype.test]
      computes for a pattern anchored by [^] and [$] with no flags.
    - The elements below a form are a tree of [node]s.  An element
      reference to a control is its position in document order; the
      operations on a control work on its parent element through a
      [focus].
    - A Number is [NaN], an infinity or a double that is an integer:
      [parseInt] rounds the integer it reads to the nearest double,
      and a template literal prints a Number as Number::toString does.
    - What the HTML parser of the browser makes of a message written
      into the markup of a notification is a parameter, [Parser], of
      the form-feedback variant of [showNotification].
    - The methods that the submit listener calls on the form element
      are those of the DOM, except [reset], which a control of that
      name or id shadows ([shadowed]).
    - The rest of the page is a record [Page] passed from statement to
      statement; statements that may throw live in the monad [M].
    - The event loop is the function [step]; timers are kept in a list
      and may run in any order, which covers the order of a browser. *)

From Stdlib Require Import ZArith NArith List Bool String Ascii DecimalString Lia.
From stdpp Require Import base option list gmap.

Local Open Scope N_scope.

(** ** Strings *)

Abbreviation jsstring := (list N).

(** The code units of an ASCII literal. *)
Definition js (s : string) : jsstring :=
  List.map N_of_ascii (list_ascii_of_string s).

(** [\s] of a regular expression, which is also the set of characters
    removed by [String.prototype.trim] and skipped by [parseInt]:
    WhiteSpace and LineTerminator of ECMAScript. *)
Definition is_space (c : N) : bool :=
  (c =? 9) || (c =? 10) || (c =? 11) || (c =? 12) || (c =? 13)
  || (c =? 32) || (c =? 160) || (c =? 5760)
  || ((8192 <=? c) && (c <=? 8202))
  || (c =? 8232) || (c =? 8233) || (c =? 8239) || (c =? 8287)
  || (c =? 12288) || (c =? 65279).

(** [\d] (no [u] flag): the ten ASCII digits. *)
Definition is_digit (c : N) : bool := (48 <=? c) && (c <=? 57).

Definition at_sign : N := 64.
Definition dot : N := 46.

(** [String.prototype.trim]. *)
Fixpoint trimStart (s : jsstring) : jsstring :=
  match s with
  | c :: s' => if is_space c then trimStart s' else s
  | [] => []
  end.

Definition trimEnd (s : jsstring) : jsstring := rev (trimStart (rev s)).

Definition trim (s : jsstring) : jsstring := trimEnd (trimStart s).

(** ** Regular expressions *)

Module RegExp.

Inductive regex : Type :=
| Void : regex
| Eps : regex
| Class (p : N -> bool) : regex
| Cat (r1 r2 : regex) : regex
| Alt (r1 r2 : regex) : regex
| Star (r : regex) : regex.

(** [r+] *)
Definition Plus (r : regex) : regex := Cat r (Star r).

Fixpoint nullable (r : regex) : bool :=
  match r with
  | Void => false
  | Eps => true
  | Class _ => false
  | Cat r1 r2 => nullable r1 && nullable r2
  | Alt r1 r2 => nullable r1 || nullable r2
  | Star _ => true
  end.

Fixpoint deriv (c : N) (r : regex) : regex :=
  match r with
  | Void => Void
  | Eps => Void
  | Class p => if p c then Eps else Void
  | Cat r1 r2 =>
      if nullable r1 then Alt (Cat (deriv c r1) r2) (deriv c r2)
      else Cat (deriv c r1) r2
  | Alt r1 r2 => Alt (deriv c r1) (deriv c r2)
  | Star r1 => Cat (deriv c r1) (Star r1)
  end.

(** [/^r$/.test(s)] *)
Fixpoint test (r : regex) (s : jsstring) : bool :=
  match s with
  | [] => nullable r
  | c :: s' => test (deriv c r) s'
  end.

(** The words of a regular expression. *)
Inductive Lang : regex -> jsstring -> Prop :=
| L_eps : Lang Eps []
| L_class p c : p c = true -> Lang (Class p) [c]
| L_cat r1 r2 s1 s2 : Lang r1 s1 -> Lang r2 s2 -> Lang (Cat r1 r2) (s1 ++ s2)
| L_alt_l r1 r2 s : Lang r1 s -> Lang (Alt r1 r2) s
| L_alt_r r1 r2 s : Lang r2 s -> Lang (Alt r1 r2) s
| L_star_nil r : Lang (Star r) []
| L_star_app r s1 s2 : Lang r s1 -> Lang (Star r) s2 -> Lang (Star r) (s1 ++ s2).

End RegExp.

Import RegExp.

(** ** Email and phone shape *)

(** [[^\s@]] *)
Definition not_space_at (c : N) : bool := negb (is_space c || (c =? at_sign)).

(** [/^[^\s@]+@[^\s@]+\.[^\s@]+$/] *)
Definition re_email : regex :=
  Cat (Plus (Class not_space_at))
    (Cat (Class (N.eqb at_sign))
       (Cat (Plus (Class not_space_at))
          (Cat (Class (N.eqb dot))
             (Plus (Class not_space_at))))).

Definition validateEmail (email : jsstring) : bool := test re_email email.

(** [[\d\s\+\-\(\)]] *)
Definition phone_char (c : N) : bool :=
  is_digit c || is_space c
  || (c =? 43) || (c =? 45) || (c =? 40) || (c =? 41).

(** [/^[\d\s\+\-\(\)]+$/] *)
Definition re_phone : regex := Plus (Class phone_char).

(** [phone.replace(/\D/g, '')] *)
Definition strip_non_digits (s : jsstring) : jsstring := filter (fun c => is_digit c = true) s.

Definition validatePhone (phone : jsstring) : bool :=
  test re_phone phone && (7 <=? length (strip_non_digits phone))%nat.

(** ** Numbers *)

(** The value of a digit of [parseInt], in any radix up to 36. *)
Definition digit_value (c : N) : option Z :=
  if is_digit c then Some (Z.of_N c - 48)%Z
  else if (97 <=? c) && (c <=? 122) then Some (Z.of_N c - 87)%Z
  else if (65 <=? c) && (c <=? 90) then Some (Z.of_N c - 55)%Z
  else None.

(** The longest prefix of radix-[R] digits, read as a number; [None]
    when that prefix is empty. *)
Fixpoint parse_digits (R : Z) (s : jsstring) (acc : option Z) : option Z :=
  match s with
  | c :: s' =>
      match digit_value c with
      | Some d =>
          if (d <? R)%Z
          then parse_digits R s' (Some (default 0 acc * R + d))%Z
          else acc
      | None => acc
      end
  | [] => acc
  end.

(** A list of digits without its leading zeros. *)
Fixpoint dropwhile_zero (s : jsstring) : jsstring :=
  match s with
  | 48 :: s' => dropwhile_zero s'
  | _ => s
  end.

(** The Numbers that [parseInt] returns: [NaN], an infinity, or a
    finite double, which is then an integer. *)
Inductive Number : Type :=
| NaN
| Num (z : Z)
| Infinity (negative : bool).

(** The double nearest to a non-negative integer, ties to the even
    significand (53 bits); [None] from 2^1024 on, where the Number is
    an infinity. *)
Definition nearest_double (n : Z) : option Z :=
  let bits := (Z.log2 n + 1)%Z in
  if (bits <=? 53)%Z then Some n
  else
    let sh := (bits - 53)%Z in
    let q := Z.shiftr n sh in
    let r := Z.land n (Z.ones sh) in
    let half := Z.shiftl 1 (sh - 1) in
    let q' :=
      if (half <? r)%Z || ((r =? half)%Z && Z.odd q) then (q + 1)%Z else q in
    let m := Z.shiftl q' sh in
    if (m <? 2 ^ 1024)%Z then Some m else None.

(** The Number value of a mathematical integer. *)
Definition toNumber (n : Z) : Number :=
  if (n <? 0)%Z then
    match nearest_double (- n) with
    | Some m => Num (- m)
    | None => Infinity true
    end
  else
    match nearest_double n with
    | Some m => Num m
    | None => Infinity false
    end.

(** The sign that [parseInt] reads, and what follows it. *)
Definition sign_prefix (s : jsstring) : Z * jsstring :=
  match s with
  | 45 :: t => ((-1)%Z, t)
  | 43 :: t => (1%Z, t)
  | _ => (1%Z, s)
  end.

(** The radix that [parseInt] takes when it is given none: 16 after
    [0x] or [0X], which it skips, and 10 otherwise. *)
Definition radix_prefix (s : jsstring) : Z * jsstring :=
  match s with
  | 48 :: x :: t => if (x =? 120) || (x =? 88) then (16%Z, t) else (10%Z, s)
  | _ => (10%Z, s)
  end.

(** [parseInt(s)] with no radix argument: leading white space is
    skipped, a sign is read, a [0x] or [0X] prefix selects radix 16,
    and the digits that follow are read; the result is the Number value
    of the integer read, [NaN] when no digit is read.  (ECMAScript lets
    an implementation replace the decimal digits after the twentieth
    by zeros before rounding; the engines of the browsers round the
    integer as it is written.) *)
Definition parseInt (s : jsstring) : Number :=
  let '(sign, s2) := sign_prefix (trimStart s) in
  let '(R, s3) := radix_prefix s2 in
  match parse_digits R s3 None with
  | Some n => toNumber (sign * n)
  | None => NaN
  end.

(** [value.length < minLength]; a comparison with [NaN] is false. *)
Definition length_lt (s : jsstring) (n : Number) : bool :=
  match n with
  | NaN => false
  | Num m => (Z.of_nat (length s) <? m)%Z
  | Infinity negative => negb negative
  end.

(** The decimal digits of a non-negative integer. *)
Definition decimal (n : Z) : jsstring :=
  js (NilZero.string_of_int (Z.to_int n)).

(** The integer with the fewest significant decimal digits whose
    nearest double is the positive double [x] and, among those, the
    nearest to [x] (the even one of two at the same distance): the
    digits that Number::toString prints for [x].  With [k] significant
    digits the candidates are the two multiples of the power of ten
    that enclose [x]. *)
Definition shortest (x : Z) : Z :=
  let d := length (decimal x) in
  let rounds_to_x c :=
    match nearest_double c with Some m => (m =? x)%Z | None => false end in
  let with_digits (k : nat) : option Z :=
    let p := (10 ^ Z.of_nat (d - k))%Z in
    let lo := (x / p * p)%Z in
    let hi := (lo + p)%Z in
    match rounds_to_x lo, rounds_to_x hi with
    | true, true =>
        if (x - lo <? hi - x)%Z then Some lo
        else if (hi - x <? x - lo)%Z then Some hi
        else if Z.even (lo / p) then Some lo else Some hi
    | true, false => Some lo
    | false, true => Some hi
    | false, false => None
    end in
  default x (head (omap with_digits (seq 1 d))).

(** The digits of a positive integer without its final zeros. *)
Definition significand (n : Z) : jsstring :=
  rev (dropwhile_zero (rev (decimal n))).

(** Number::toString for a positive double that is an integer: the
    digits of [shortest], written out below 10^21 and in exponent
    notation from there on. *)
Definition positive_to_string (x : Z) : jsstring :=
  let v := shortest x in
  if (v <? 10 ^ 21)%Z then decimal v
  else
    let e := js "e+" ++ decimal (Z.of_nat (length (decimal v)) - 1) in
    match significand v with
    | [c] => c :: e
    | c :: r => c :: 46 :: r ++ e
    | [] => e
    end.

(** What a template literal prints for a Number. *)
Definition ToString (n : Number) : jsstring :=
  match n with
  | NaN => js "NaN"
  | Num z =>
      if (z =? 0)%Z then js "0"
      else if (z <? 0)%Z then 45 :: positive_to_string (- z)
      else positive_to_string z
  | Infinity negative =>
      if negative then js "-Infinity" else js "Infinity"
  end.

(** What a template literal prints for the Number value of an
    integer. *)
Definition NumberToString (n : Z) : jsstring := ToString (toNumber n).

(** A string is truthy when it is not empty. *)
Definition truthy (s : jsstring) : bool :=
  match s with [] => false | _ => true end.

(** ** The display tree of a form *)

(** A form control: an [input], [textarea] or [select] element.
    [attrs] holds its content attributes ([hasAttribute],
    [getAttribute]); [type], [value] and [name] are the properties the
    code reads; [checked] is the checkedness of a checkbox or radio
    button, which [new FormData(form)] reads; [defaultValue] is the
    value that [form.reset()] restores. *)
Record Field : Type := {
  name : jsstring;
  type : jsstring;
  value : jsstring;
  defaultValue : jsstring;
  checked : bool;
  attrs : gmap jsstring jsstring;
  borderColor : jsstring
}.

Definition hasAttribute (f : Field) (a : string) : bool :=
  bool_decide (is_Some (attrs f !! js a)).

Definition getAttribute (f : Field) (a : string) : jsstring :=
  default [] (attrs f !! js a).

Definition set_borderColor (c : jsstring) (f : Field) : Field :=
  {| name := name f; type := type f; value := value f;
     defaultValue := defaultValue f; checked := checked f; attrs := attrs f;
     borderColor := c |}.

Definition set_value (v : jsstring) (f : Field) : Field :=
  {| name := name f; type := type f; value := v;
     defaultValue := defaultValue f; checked := checked f; attrs := attrs f;
     borderColor := borderColor f |}.

(** The elements below a form, in document order: controls, the
    [div.field-error] annotations with their [innerHTML], and every
    other element with its children. *)
#[local] Unset Elimination Schemes.
Inductive node : Type :=
| Input (f : Field)
| FieldError (html : jsstring)
| Elem (children : list node).
#[local] Set Elimination Schemes.

(** [querySelectorAll('input, textarea, select')] *)
Fixpoint fields_of (n : node) : list Field :=
  match n with
  | Input f => [f]
  | FieldError _ => []
  | Elem cs => concat (List.map fields_of cs)
  end.

Definition fields (cs : list node) : list Field := concat (List.map fields_of cs).

(** All [.field-error] elements of a subtree. *)
Fixpoint errors_of (n : node) : list jsstring :=
  match n with
  | Input _ => []
  | FieldError h => [h]
  | Elem cs => concat (List.map errors_of cs)
  end.

Definition errors (cs : list node) : list jsstring := concat (List.map errors_of cs).

(** The [.field-error] elements among the children themselves. *)
Definition child_errors (cs : list node) : list jsstring :=
  omap (fun c => match c with FieldError h => Some h | _ => None end) cs.

(** [parent.querySelector('.field-error')] followed by [remove()] on
    the element found: the first annotation of the children [cs] of
    [parent] in document order is taken out; [None] when
    [querySelector] returns [null]. *)
Fixpoint remove_error_in (n : node) : option node :=
  match n with
  | Elem cs =>
      Elem <$>
        (fix go (cs : list node) : option (list node) :=
           match cs with
           | [] => None
           | c :: r =>
               match c with
               | FieldError _ => Some r
               | _ =>
                   match remove_error_in c with
                   | Some c' => Some (c' :: r)
                   | None => cons c <$> go r
                   end
               end
           end) cs
  | _ => None
  end.

Fixpoint remove_first_error (cs : list node) : option (list node) :=
  match cs with
  | [] => None
  | c :: r =>
      match c with
      | FieldError _ => Some r
      | _ =>
          match remove_error_in c with
          | Some c' => Some (c' :: r)
          | None => cons c <$> remove_first_error r
          end
      end
  end.

(** A control seen from its parent element: the parent's children are
    [before ++ Input target :: after]. *)
Record focus : Type := {
  before : list node;
  target : Field;
  after : list node
}.

Definition siblings (x : focus) : list node :=
  before x ++ Input (target x) :: after x.

Definition with_target (g : Field -> Field) (x : focus) : focus :=
  {| before := before x; target := g (target x); after := after x |}.

(** The ancestors of a focus, innermost first: for each, the siblings
    to its left and to its right. *)
Definition context := list (list node * list node).

Fixpoint plug (ctx : context) (cs : list node) : list node :=
  match ctx with
  | [] => cs
  | (l, r) :: ctx' => plug ctx' (l ++ Elem cs :: r)
  end.

(** The [k]-th control of an element in document order, with its
    parent's other children and its ancestors. *)
Fixpoint zoom_in (k : nat) (n : node) : option (context * focus) :=
  match n with
  | Elem cs =>
      (fix go (k : nat) (l cs : list node) : option (context * focus) :=
         match cs with
         | [] => None
         | c :: r =>
             match c with
             | Input f =>
                 match k with
                 | O => Some ([], {| before := l; target := f; after := r |})
                 | S k' => go k' (l ++ [c]) r
                 end
             | FieldError _ => go k (l ++ [c]) r
             | Elem _ =>
                 match zoom_in k c with
                 | Some (ctx, x) => Some (ctx ++ [(l, r)], x)
                 | None => go (k - length (fields_of c))%nat (l ++ [c]) r
                 end
             end
         end) k [] cs
  | _ => None
  end.

Definition zoom (k : nat) (cs : list node) : option (context * focus) :=
  zoom_in k (Elem cs).

(** The search of [zoom_in] among the children [cs] of an element,
    [l] being the children already passed. *)
Fixpoint zoom_from (k : nat) (l cs : list node) : option (context * focus) :=
  match cs with
  | [] => None
  | c :: r =>
      match c with
      | Input f =>
          match k with
          | O => Some ([], {| before := l; target := f; after := r |})
          | S k' => zoom_from k' (l ++ [c]) r
          end
      | FieldError _ => zoom_from k (l ++ [c]) r
      | Elem _ =>
          match zoom_in k c with
          | Some (ctx, x) => Some (ctx ++ [(l, r)], x)
          | None => zoom_from (k - length (fields_of c))%nat (l ++ [c]) r
          end
      end
  end.

(** The controls that precede and that follow the hole of a context. *)
Fixpoint ctx_pre (ctx : context) : list Field :=
  match ctx with
  | [] => []
  | (l, _) :: ctx' => ctx_pre ctx' ++ fields l
  end.

Fixpoint ctx_post (ctx : context) : list Field :=
  match ctx with
  | [] => []
  | (_, r) :: ctx' => fields r ++ ctx_post ctx'
  end.

(** An operation on the [k]-th control of a form, seen from its parent
    element; the form is left as it is when it has no such control. *)
Definition at_field {A : Type} (k : nat) (g : focus -> focus * A) (d : A)
    (cs : list node) : list node * A :=
  match zoom k cs with
  | Some (ctx, x) => let (x', a) := g x in (plug ctx (siblings x'), a)
  | None => (cs, d)
  end.

(** ** Field validation *)

Definition quote : N := 34.

(** [<i class="fas fa-exclamation-circle"></i> ${message}] *)
Definition error_html (message : jsstring) : jsstring :=
  js "<i class=" ++ [quote] ++ js "fas fa-exclamation-circle" ++ [quote]
  ++ js "></i> " ++ message.

(** [field.parentElement.querySelector('.field-error')] and, when it
    is not [null], [remove()]. *)
Definition remove_error (x : focus) : option focus :=
  match remove_first_error (before x) with
  | Some b => Some {| before := b; target := target x; after := after x |}
  | None =>
      match remove_first_error (after x) with
      | Some a => Some {| before := before x; target := target x; after := a |}
      | None => None
      end
  end.

(** [field.parentElement.appendChild(errorDiv)] *)
Definition appendChild (c : node) (x : focus) : focus :=
  {| before := before x; target := target x; after := after x ++ [c] |}.

Definition clearFieldError (x : focus) : focus :=
  let x := with_target (set_borderColor []) x in
  match remove_error x with
  | Some x' => x'
  | None => x
  end.

Definition showFieldError (message : jsstring) (x : focus) : focus :=
  let x := with_target (set_borderColor (js "#ef4444")) x in
  let x := match remove_error x with Some x' => x' | None => x end in
  appendChild (FieldError (error_html message)) x.

Definition msg_required : jsstring := js "Este campo es obligatorio".

(** "Por favor ingresa un email válido" *)
Definition msg_email : jsstring :=
  js "Por favor ingresa un email v" ++ [225] ++ js "lido".

(** "Por favor ingresa un teléfono válido" *)
Definition msg_phone : jsstring :=
  js "Por favor ingresa un tel" ++ [233] ++ js "fono v" ++ [225] ++ js "lido".

(** [`Mínimo ${minLength} caracteres requeridos`] *)
Definition msg_minlength (minLength : Number) : jsstring :=
  js "M" ++ [237] ++ js "nimo " ++ ToString minLength
  ++ js " caracteres requeridos".

Definition validateField (x : focus) : focus * bool :=
  let field := target x in
  let value := trim (value field) in
  let isRequired := hasAttribute field "required" in
  let x := clearFieldError x in
  if isRequired && negb (truthy value) then
    (showFieldError msg_required x, false)
  else if bool_decide (type field = js "email") && truthy value
          && negb (validateEmail value) then
    (showFieldError msg_email x, false)
  else if bool_decide (type field = js "tel") && truthy value
          && negb (validatePhone value) then
    (showFieldError msg_phone x, false)
  else if hasAttribute field "minlength" then
    let minLength := parseInt (getAttribute field "minlength") in
    if length_lt value minLength then
      (showFieldError (msg_minlength minLength) x, false)
    else (x, true)
  else (x, true).

(** The same operations on the [k]-th control of a form. *)
Definition validateFieldAt (k : nat) (cs : list node) : list node * bool :=
  at_field k validateField true cs.

Definition clearFieldErrorAt (k : nat) (cs : list node) : list node :=
  fst (at_field k (fun x => (clearFieldError x, tt)) tt cs).

Definition showFieldErrorAt (k : nat) (message : jsstring) (cs : list node)
    : list node :=
  fst (at_field k (fun x => (showFieldError message x, tt)) tt cs).

Definition setValueAt (k : nat) (text : jsstring) (cs : list node) : list node :=
  fst (at_field k (fun x => (with_target (set_value text) x, tt)) tt cs).

(** ** The page *)

Inductive severity : Type := success | error | info | warning.

(** The HTML parser of the browser, as far as the notification of the
    form utilities depends on it.  That function writes [message]
    into the markup of the notification, between [<span>] and
    [</span>], and then looks in the notification for the element of
    class [close-notification]: [has_close_button message] tells
    whether it finds one.  A message without [<] opens no tag and no
    comment, so that the button which the markup holds after the span
    is parsed as written. *)
Record Parser : Type := {
  has_close_button : jsstring -> bool;
  plain_has_close_button :
    forall message,
      forallb (fun c => negb (c =? 60)) message = true ->
      has_close_button message = true
}.

(** The two definitions of [showNotification]: the one of the form
    utilities (class [form-notification], 5 s), in a browser with its
    parser, and the one of the page script (class [notification],
    3 s).  A page binds the global name to one of them. *)
Inductive variant : Type := FormFeedback (p : Parser) | PageFeedback.

(** A notification element attached to [document.body].  Its markup
    and style are functions of [message] and [level]; [animation] is
    [style.animation]. *)
Record Toast : Type := {
  toast_id : nat;
  message : jsstring;
  level : severity;
  animation : jsstring
}.

Record Button : Type := {
  innerHTML : jsstring;
  disabled : bool
}.

Inductive exn : Type :=
| TypeError
| Thrown (payload : jsstring).

(** The callbacks handed to [setTimeout]. *)
Inductive callback : Type :=
| AutoDismiss (id : nat)
| Detach (id : nat)
| Resolve (data : gmap jsstring jsstring) (originalBtnText : jsstring).

(** What the page did, oldest first: a notification appended to the
    body, the transmission step started (the promise of the simulated
    API call created and awaited), the two console calls of the submit
    listener, a call of [onSuccess], an exception that left a
    listener. *)
Inductive effect : Type :=
| Shown (id : nat) (message : jsstring) (level : severity)
| Transmit (data : gmap jsstring jsstring)
| ConsoleLog (data : gmap jsstring jsstring)
| ConsoleError (e : exn)
| Called (data : gmap jsstring jsstring)
| Uncaught (e : exn).

(** [form]: the children of the form element.  [submitBtn]: the
    element [form.querySelector('button[type="submit"]')], if any.
    [toasts]: the elements matching the selector of [showNotification],
    in document order.  [fresh]: the identity of the next element
    created.  [timers]: the pending [setTimeout] calls with their
    delays in milliseconds, oldest first. *)
Record Page : Type := {
  form : list node;
  submitBtn : option Button;
  toasts : list Toast;
  fresh : nat;
  timers : list (N * callback);
  trace : list effect
}.

Definition upd_form (g : list node -> list node) (s : Page) : Page :=
  {| form := g (form s); submitBtn := submitBtn s; toasts := toasts s;
     fresh := fresh s; timers := timers s; trace := trace s |}.

Definition upd_button (g : Button -> Button) (s : Page) : Page :=
  {| form := form s; submitBtn := g <$> submitBtn s; toasts := toasts s;
     fresh := fresh s; timers := timers s; trace := trace s |}.

Definition upd_toasts (g : list Toast -> list Toast) (s : Page) : Page :=
  {| form := form s; submitBtn := submitBtn s; toasts := g (toasts s);
     fresh := fresh s; timers := timers s; trace := trace s |}.

Definition next_fresh (s : Page) : Page :=
  {| form := form s; submitBtn := submitBtn s; toasts := toasts s;
     fresh := S (fresh s); timers := timers s; trace := trace s |}.

Definition upd_timers (g : list (N * callback) -> list (N * callback))
    (s : Page) : Page :=
  {| form := form s; submitBtn := submitBtn s; toasts := toasts s;
     fresh := fresh s; timers := g (timers s); trace := trace s |}.

Definition record (e : effect) (s : Page) : Page :=
  {| form := form s; submitBtn := submitBtn s; toasts := toasts s;
     fresh := fresh s; timers := timers s; trace := trace s ++ [e] |}.

Definition setTimeout (c : callback) (delay : N) (s : Page) : Page :=
  upd_timers (fun ts => ts ++ [(delay, c)]) s.

Definition set_innerHTML (h : jsstring) (b : Button) : Button :=
  {| innerHTML := h; disabled := disabled b |}.

Definition set_disabled (d : bool) (b : Button) : Button :=
  {| innerHTML := innerHTML b; disabled := d |}.

Definition set_animation (a : jsstring) (t : Toast) : Toast :=
  {| toast_id := toast_id t; message := message t; level := level t;
     animation := a |}.

(** ** Statements that may throw *)

Inductive completion (A : Type) : Type :=
| Normal (a : A)
| Throw (e : exn).
Arguments Normal {A} a.
Arguments Throw {A} e.

Definition M (A : Type) : Type := Page -> Page * completion A.

Definition ret {A : Type} (a : A) : M A := fun s => (s, Normal a).

Definition throw {A : Type} (e : exn) : M A := fun s => (s, Throw e).

Definition bind {A B : Type} (m : M A) (k : A -> M B) : M B :=
  fun s =>
    match m s with
    | (s', Normal a) => k a s'
    | (s', Throw e) => (s', Throw e)
    end.

Definition gets {A : Type} (g : Page -> A) : M A := fun s => (s, Normal (g s)).

Definition modify (g : Page -> Page) : M unit := fun s => (g s, Normal tt).

Declare Scope js_scope.
Delimit Scope js_scope with js_scope.
Notation "x <- m ;; k" := (bind m (fun x => k))
  (at level 100, m at next level, right associativity) : js_scope.
Notation "m ;; k" := (bind m (fun _ => k))
  (at level 100, right associativity) : js_scope.

(** [try { body } catch (e) { handler } finally { fin }] *)
Definition tryCatchFinally (body : M unit) (handler : exn -> M unit)
    (fin : M unit) : M unit :=
  fun s =>
    let '(s1, r1) :=
      match body s with
      | (s', Normal _) => (s', Normal tt)
      | (s', Throw e) => handler e s'
      end in
    match fin s1 with
    | (s2, Normal _) => (s2, r1)
    | (s2, Throw e) => (s2, Throw e)
    end.

(** A listener run by the event loop: an exception that leaves it is
    reported and dropped. *)
Definition run (m : M unit) (s : Page) : Page :=
  match m s with
  | (s', Normal _) => s'
  | (s', Throw e) => record (Uncaught e) s'
  end.

(** ** Notifications *)

Definition slideInRight : jsstring := js "slideInRight 0.3s ease".
Definition slideOutRight : jsstring := js "slideOutRight 0.3s ease".

Definition dismiss_delay (v : variant) : N :=
  match v with FormFeedback _ => 5000 | PageFeedback => 3000 end.

(** [notification.parentElement] is not [null]. *)
Definition attached (id : nat) (s : Page) : bool :=
  existsb (fun t => Nat.eqb (toast_id t) id) (toasts s).

(** [notification.remove()] *)
Definition detach (id : nat) (s : Page) : Page :=
  upd_toasts (List.filter (fun t => negb (Nat.eqb (toast_id t) id))) s.

(** [notification.style.animation = ...] *)
Definition animate (id : nat) (a : jsstring) (s : Page) : Page :=
  upd_toasts
    (List.map (fun t => if Nat.eqb (toast_id t) id then set_animation a t else t))
    s.

(** [const existingNotification = document.querySelector(...);
     if (existingNotification) existingNotification.remove()] *)
Definition evict (s : Page) : Page :=
  upd_toasts
    (fun ts => match ts with _existingNotification :: r => r | [] => [] end) s.

(** [document.createElement('div')] with its class, markup and style,
    then [document.body.appendChild(notification)]. *)
Definition insert (message : jsstring) (type : severity) (s : Page) : Page :=
  let notification :=
    {| toast_id := fresh s; message := message; level := type;
       animation := slideInRight |} in
  record (Shown (fresh s) message type)
    (next_fresh (upd_toasts (fun ts => ts ++ [notification]) s)).

(** Whether [showNotification] finds what it dereferences: the page
    script looks nothing up in the notification. *)
Definition closable (v : variant) (message : jsstring) : bool :=
  match v with
  | FormFeedback p => has_close_button p message
  | PageFeedback => true
  end.

Local Open Scope js_scope.

(** [showNotification(message, type)].  In the form utilities
    [closeBtn.style.cssText = ...] throws a [TypeError] when
    [notification.querySelector('.close-notification')] is [null]:
    the notification is on the page by then, and the timer is not
    set. *)
Definition showNotification (v : variant) (message : jsstring)
    (type : severity) : M unit :=
  modify evict ;;
  notification <- gets fresh ;;
  modify (insert message type) ;;
  match v with
  | FormFeedback p =>
      if has_close_button p message then ret tt else throw TypeError
  | PageFeedback => ret tt
  end ;;
  modify (setTimeout (AutoDismiss notification) (dismiss_delay v)).

Local Close Scope js_scope.

(** The 5 s callback of the form utilities tests
    [notification.parentElement]; the 3 s callback of the page script
    does not. *)
Definition autoDismiss (v : variant) (notification : nat) (s : Page) : Page :=
  match v with
  | FormFeedback _ =>
      if attached notification s then
        setTimeout (Detach notification) 300
          (animate notification slideOutRight s)
      else s
  | PageFeedback =>
      setTimeout (Detach notification) 300
        (animate notification slideOutRight s)
  end.

(** The click listener of the close button (form utilities only). *)
Definition closeClick (notification : nat) (s : Page) : Page :=
  setTimeout (Detach notification) 300 (animate notification slideOutRight s).

(** ** Form submission *)

(** How the awaited promise settles. *)
Inductive settled : Type :=
| Resolved
| Rejected (e : exn).

(** The arguments of [handleFormSubmission] after the form id.  A
    callback either returns or throws. *)
Record Handler : Type := {
  successMessage : option jsstring;
  onSuccess : option (gmap jsstring jsstring -> option exn)
}.

(** An [input] that is a button: its type is [submit], [reset],
    [button] or [image]. *)
Definition is_button (f : Field) : bool :=
  bool_decide (type f ∈ [js "submit"; js "reset"; js "button"; js "image"]).

(** A checkbox or a radio button. *)
Definition checkable (f : Field) : bool :=
  bool_decide (type f ∈ [js "checkbox"; js "radio"]).

(** The controls from which [new FormData(form)], called without
    submitter, makes an entry, by the steps of the HTML standard that
    construct the entry list: not a control with the [disabled]
    attribute, not a button, not a checkbox or radio button that is
    not checked, and not a control without name. *)
Definition submittable (f : Field) : bool :=
  negb (hasAttribute f "disabled")
  && negb (is_button f)
  && (negb (checkable f) || checked f)
  && truthy (name f).

(** [new FormData(form).entries()]: one entry per submittable control,
    in document order, with its name and its value (for a checkbox or
    radio button, [value] is the [value] attribute or ["on"]).  The
    entries of a [select] are taken to be its value, which is so when
    one enabled option is selected; controls of type [file], whose
    entries are [File] objects, controls disabled by a [fieldset] or
    below a [datalist], and the [dirname] attribute are not
    represented. *)
Definition FormData (cs : list node) : list (jsstring * jsstring) :=
  omap (fun f => if submittable f then Some (name f, value f) else None)
    (fields cs).

(** [Object.fromEntries]: a later entry replaces an earlier one of the
    same name. *)
Definition fromEntries (es : list (jsstring * jsstring))
    : gmap jsstring jsstring :=
  foldl (fun m e => <[e.1 := e.2]> m) ∅ es.

(** What [form.reset()] does to a control: the value is the default
    value again, and the checkedness follows the [checked]
    attribute. *)
Definition reset_field (f : Field) : Field :=
  {| name := name f; type := type f; value := defaultValue f;
     defaultValue := defaultValue f; checked := hasAttribute f "checked";
     attrs := attrs f; borderColor := borderColor f |}.

(** [form.reset()] *)
Fixpoint reset_node (n : node) : node :=
  match n with
  | Input f => Input (reset_field f)
  | FieldError h => FieldError h
  | Elem cs => Elem (List.map reset_node cs)
  end.

Definition reset (cs : list node) : list node := List.map reset_node cs.

(** [inputs.forEach(input => { if (!validateField(input)) isValid = false })] *)
Fixpoint forEach_validate (inputs : list nat) (cs : list node) (isValid : bool)
    : list node * bool :=
  match inputs with
  | [] => (cs, isValid)
  | input :: rest =>
      let (cs', ok) := validateFieldAt input cs in
      forEach_validate rest cs' (if negb ok then false else isValid)
  end.

Definition validateAll (cs : list node) : list node * bool :=
  forEach_validate (seq 0 (length (fields cs))) cs true.

Definition msg_fix_errors : jsstring :=
  js "Por favor corrige los errores en el formulario".

(** "¡Formulario enviado exitosamente!" *)
Definition msg_sent : jsstring := [161] ++ js "Formulario enviado exitosamente!".

Definition msg_failed : jsstring :=
  js "Hubo un error al enviar el formulario. Por favor intenta nuevamente.".

(** [<i class="fas fa-spinner fa-spin"></i> Enviando...] *)
Definition spinner : jsstring :=
  js "<i class=" ++ [quote] ++ js "fas fa-spinner fa-spin" ++ [quote]
  ++ js "></i> Enviando...".

(** [successMessage || '...'] *)
Definition or_default (m : option jsstring) (d : jsstring) : jsstring :=
  match m with
  | Some t => if truthy t then t else d
  | None => d
  end.

(** [handleFormSubmission(formId, successMessage, onSuccess)], for the
    form of the page: what the listener it registers closes over.  A
    missing argument is [None]. *)
Definition handleFormSubmission (successMessage : option jsstring)
    (onSuccess : option (gmap jsstring jsstring -> option exn)) : Handler :=
  {| successMessage := successMessage; onSuccess := onSuccess |}.

(** [form[p]] is a control of the form and not the method [p] of the
    form element: an input other than an image button, a textarea or
    a select of the form has [p] for [name] or for [id].  (Buttons and
    the other elements that a form lists by name are not part of the
    model.) *)
Definition shadowed (p : string) (cs : list node) : bool :=
  existsb
    (fun f =>
       negb (bool_decide (type f = js "image"))
       && (bool_decide (name f = js p)
           || bool_decide (attrs f !! js "id" = Some (js p))))
    (fields cs).

Section Listener.

Variable v : variant.
Variable h : Handler.

Local Open Scope js_scope.

(** The submit listener up to its [await]: validation, the loading
    state of the button, and the call
    [new Promise(resolve => setTimeout(resolve, 2000))]. *)
Definition onSubmit : M unit :=
  isValid <- (fun s =>
                let (cs, ok) := validateAll (form s) in
                (upd_form (fun _ => cs) s, Normal ok)) ;;
  if negb isValid then
    showNotification v msg_fix_errors error
  else
    data <- gets (fun s => fromEntries (FormData (form s))) ;;
    submitBtn <- gets submitBtn ;;
    match submitBtn with
    | None => throw TypeError
    | Some b =>
        let originalBtnText := innerHTML b in
        modify (upd_button (set_innerHTML spinner)) ;;
        modify (upd_button (set_disabled true)) ;;
        modify (record (Transmit data)) ;;
        modify (setTimeout (Resolve data originalBtnText) 2000)
    end.

(** The rest of the [try] block once the awaited promise has settled.
    [form.reset()] throws a [TypeError] when a control shadows
    [reset]. *)
Definition afterAwait (data : gmap jsstring jsstring) (r : settled) : M unit :=
  match r with Resolved => ret tt | Rejected e => throw e end ;;
  modify (record (ConsoleLog data)) ;;
  showNotification v (or_default (successMessage h) msg_sent) success ;;
  shadow <- gets (fun s => shadowed "reset" (form s)) ;;
  (if shadow then throw TypeError else modify (upd_form reset)) ;;
  match onSuccess h with
  | Some f =>
      modify (record (Called data)) ;;
      match f data with
      | Some e => throw e
      | None => ret tt
      end
  | None => ret tt
  end.

(** The listener from the point where its [await] returns. *)
Definition resume (data : gmap jsstring jsstring) (originalBtnText : jsstring)
    (r : settled) : M unit :=
  tryCatchFinally
    (afterAwait data r)
    (fun e =>
       modify (record (ConsoleError e)) ;;
       showNotification v msg_failed error)
    (modify (upd_button (set_innerHTML originalBtnText)) ;;
     modify (upd_button (set_disabled false))).

(** ** The event loop *)

Definition remove_nth {A : Type} (i : nat) (l : list A) : list A :=
  take i l ++ drop (S i) l.

(** A timer callback.  The promise of the simulated API call is only
    ever resolved. *)
Definition fire (c : callback) (s : Page) : Page :=
  match c with
  | AutoDismiss id => autoDismiss v id s
  | Detach id => detach id s
  | Resolve data originalBtnText => run (resume data originalBtnText Resolved) s
  end.

Inductive event : Type :=
| Submit
| Timer (i : nat)
| Close (id : nat)
| Blur (k : nat)
| Focus (k : nat)
| Typing (k : nat) (text : jsstring)
| Show (message : jsstring) (type : severity).

(** One turn of the event loop.  [Timer i] runs the [i]-th pending
    timer; [Close id] is a click on the close button of a visible
    notification, for a notification that has one; [Show] is a call
    of [showNotification] from the page. *)
Definition step (e : event) (s : Page) : Page :=
  match e with
  | Submit => run onSubmit s
  | Timer i =>
      match timers s !! i with
      | Some (_, c) => fire c (upd_timers (remove_nth i) s)
      | None => s
      end
  | Close id =>
      match v with
      | FormFeedback _ => if attached id s then closeClick id s else s
      | PageFeedback => s
      end
  | Blur k => upd_form (fun cs => fst (validateFieldAt k cs)) s
  | Focus k => upd_form (clearFieldErrorAt k) s
  | Typing k text => upd_form (setValueAt k text) s
  | Show message type => run (showNotification v message type) s
  end.

Definition steps (es : list event) (s : Page) : Page :=
  foldl (fun s e => step e s) s es.

(** A page as loaded: no notification, no timer, nothing done yet. *)
Definition loaded (s : Page) : Prop :=
  toasts s = [] /\ timers s = [] /\ trace s = [].

Inductive reachable : Page -> Prop :=
| reach_loaded s : loaded s -> reachable s
| reach_step e s : reachable s -> reachable (step e s).

End Listener.

(** ** Vocabulary of the specification *)

(** The four checks of a field, in the order in which the specification
    lists them, each taken on its own. *)
Inductive check : Type := Required | Email | Phone | MinLength.

Definition fails (c : check) (f : Field) : bool :=
  let v := trim (value f) in
  match c with
  | Required => hasAttribute f "required" && negb (truthy v)
  | Email =>
      bool_decide (type f = js "email") && truthy v && negb (validateEmail v)
  | Phone =>
      bool_decide (type f = js "tel") && truthy v && negb (validatePhone v)
  | MinLength =>
      hasAttribute f "minlength"
      && length_lt v (parseInt (getAttribute f "minlength"))
  end.

Definition check_message (c : check) (f : Field) : jsstring :=
  match c with
  | Required => msg_required
  | Email => msg_email
  | Phone => msg_phone
  | MinLength => msg_minlength (parseInt (getAttribute f "minlength"))
  end.

Definition first_failing (f : Field) : option check :=
  List.find (fun c => fails c f) [Required; Email; Phone; MinLength].

(** The place of a check in that order. *)
Definition rank (c : check) : nat :=
  match c with Required => 0 | Email => 1 | Phone => 2 | MinLength => 3 end.

(** A control without its border colour: everything [validateField],
    [FormData] and [form.reset()] read from it. *)
Definition unstyled (f : Field) : Field := set_borderColor [] f.

(** What [validateField] returns for a control, whatever surrounds it. *)
Definition valid (f : Field) : bool :=
  snd (validateField {| before := []; target := f; after := [] |}).


(** A Number above zero. *)
Definition positive (n : Number) : bool :=
  match n with
  | NaN => false
  | Num z => (0 <? z)%Z
  | Infinity negative => negb negative
  end.


Definition is_transmit (e : effect) : bool :=
  match e with Transmit _ => true | _ => false end.

Definition is_shown (e : effect) : bool :=
  match e with Shown _ _ _ => true | _ => false end.


Definition transmissions (tr : list effect) : nat :=
  length (List.filter is_transmit tr).

Definition notifications (tr : list effect) : nat :=
  length (List.filter is_shown tr).

(** The notification a timer callback acts on. *)
Definition timer_target (c : callback) : option nat :=
  match c with
  | AutoDismiss id => Some id
  | Detach id => Some id
  | Resolve _ _ => None
  end.

(** ** Sample pages *)

Definition text_field (nm ty v : string) (required : bool) : Field :=
  {| name := js nm; type := js ty; value := js v; defaultValue := [];
     checked := false;
     attrs := if required then {[ js "required" := [] ]} else ∅;
     borderColor := [] |}.

Definition with_minlength (a : string) (f : Field) : Field :=
  {| name := name f; type := type f; value := value f;
     defaultValue := defaultValue f; checked := checked f;
     attrs := <[ js "minlength" := js a ]> (attrs f);
     borderColor := borderColor f |}.

(** One control directly below the form and two in wrappers of their
    own, all required and empty. *)
Definition nested_form : list node :=
  [ Input (text_field "a" "text" "" true);
    Elem [Input (text_field "b" "text" "" true)];
    Elem [Input (text_field "c" "text" "" true)] ].

(** Every control in a wrapper of its own, all filled in. *)
Definition contact_form : list node :=
  [ Elem [Input (text_field "name" "text" "Ana" true)];
    Elem [Input (text_field "email" "email" "a@b.co" true)];
    Elem [Input (text_field "phone" "tel" "+1 (555) 123-4567" false)] ].

(** A parser for the samples.  It finds the close button when the
    message holds no [<], as every parser does, and does not find it
    otherwise, as a browser does not for the message [<!--], which
    opens a comment that runs to the end of the markup. *)
Definition text_parser : Parser :=
  {| has_close_button := forallb (fun c => negb (c =? 60));
     plain_has_close_button := fun _ H => H |}.

Definition page_of (cs : list node) (b : option Button) : Page :=
  {| form := cs; submitBtn := b; toasts := []; fresh := 0%nat; timers := [];
     trace := [] |}.

Definition send_button : Button :=
  {| innerHTML := js "Enviar"; disabled := false |}.

Definition plain_handler : Handler := handleFormSubmission None None.

Definition throwing_handler : Handler :=
  handleFormSubmission None
    (Some (fun _ => Some (Thrown (js "callback failed")))).

Definition bad_email_focus : focus :=
  {| before := []; target := text_field "email" "email" "nobody" true;
     after := [] |}.




Definition contact_page : Page := page_of contact_form (Some send_button).

(** ** The phases of the submit listener *)

Section Phases.

Variable v : variant.
Variable h : Handler.

(** The form as the listener leaves it after validation. *)
Definition validated (s : Page) : Page :=
  upd_form (fun _ => fst (validateAll (form s))) s.

(** The state in which the listener suspends. *)
Definition submitting (b : Button) (s : Page) : Page :=
  let data := fromEntries (FormData (form s)) in
  setTimeout (Resolve data (innerHTML b)) 2000
    (record (Transmit data)
       (upd_button (set_disabled true)
          (upd_button (set_innerHTML spinner) (validated s)))).

(** The catch block. *)
Definition caught (e : exn) (s : Page) : Page :=
  fst (showNotification v msg_failed error (record (ConsoleError e) s)).

(** The finally block. *)
Definition restored (originalBtnText : jsstring) (s : Page) : Page :=
  upd_button (set_disabled false) (upd_button (set_innerHTML originalBtnText) s).

(** The try block after a resolved promise, up to the call of
    [showNotification], whether that call returns or throws. *)
Definition announced (data : gmap jsstring jsstring) (s : Page) : Page :=
  fst (showNotification v (or_default (successMessage h) msg_sent) success
         (record (ConsoleLog data) s)).

(** The exception with which the try block ends after a resolved
    promise, if any: from [showNotification], from [form.reset()] or
    from [onSuccess]. *)
Definition try_throws (data : gmap jsstring jsstring) (s : Page)
    : option exn :=
  if negb (closable v (or_default (successMessage h) msg_sent)) then
    Some TypeError
  else if shadowed "reset" (form s) then Some TypeError
  else
    match onSuccess h with
    | Some f => f data
    | None => None
    end.

End Phases.

(** What the listener leaves in the trace once the transmission has
    resolved, on a form with the children [cs]: the log and the
    success notification; the call of [onSuccess], if the try block
    gets that far and there is one; and the catch block when a
    statement of the try block has thrown.  [id] is the identity of
    the next notification. *)
Definition resolved_effects (v : variant) (h : Handler)
    (data : gmap jsstring jsstring) (cs : list node) (id : nat)
    : list effect :=
  let msg := or_default (successMessage h) msg_sent in
  let thrown :=
    if negb (closable v msg) then Some TypeError
    else if shadowed "reset" cs then Some TypeError
    else match onSuccess h with Some f => f data | None => None end in
  [ConsoleLog data; Shown id msg success]
  ++ (if closable v msg && negb (shadowed "reset" cs) then
        match onSuccess h with Some _ => [Called data] | None => [] end
      else [])
  ++ match thrown with
     | Some e => [ConsoleError e; Shown (S id) msg_failed error]
     | None => []
     end.

(** A handler whose success message opens a comment. *)
Definition comment_handler : Handler :=
  handleFormSubmission (Some (js "<!--")) (Some (fun _ => None)).

(** ** Invariants *)

(** What taking out the first annotation does to the controls and to
    the annotations of a list of elements. *)
Definition removal_spec (cs : list node) : Prop :=
  match remove_first_error cs with
  | Some cs' => fields cs' = fields cs /\ errors cs = hd [] (errors cs) :: errors cs'
  | None => errors cs = []
  end.

(** What a search returns: a decomposition of the children that puts
    the [k]-th control in focus, or nothing when there are [k] controls
    or fewer. *)
Definition zoom_spec (k : nat) (l cs : list node) : Prop :=
  match zoom_from k l cs with
  | Some (ctx, x) =>
      plug ctx (siblings x) = l ++ cs
      /\ length (ctx_pre ctx ++ fields (before x)) = (length (fields l) + k)%nat
  | None => (length (fields cs) <= k)%nat
  end.

(** At most one notification is attached; the identities in use, by
    notifications and by timers, have all been handed out already. *)
Record Inv (s : Page) : Prop := {
  inv_one : (length (toasts s) <= 1)%nat;
  inv_toasts : Forall (fun t => (toast_id t < fresh s)%nat) (toasts s);
  inv_timers :
    Forall (fun tc => forall id, timer_target (snd tc) = Some id ->
                                 (id < fresh s)%nat)
           (timers s)
}.

Ltac frames :=
  cbn [form submitBtn toasts fresh timers trace
       upd_form upd_button upd_toasts next_fresh upd_timers record setTimeout
       evict insert detach animate closeClick] in *.

(** ** Further vocabulary *)

(** The events whose listeners write the value of a control: typing,
    and the timers, among which the end of a transmission resets the
    form. *)
Definition edits_values (e : event) : bool :=
  match e with
  | Typing _ _ | Timer _ => true
  | _ => false
  end.

(** A string made of white space only. *)
Definition blank (s : jsstring) : Prop := Forall (fun c => is_space c = true) s.

(** ** Character counter *)

Record Counter : Type := {
  textContent : jsstring;
  color : jsstring
}.

Definition amber : jsstring := js "#f59e0b".
Definition red : jsstring := js "#ef4444".
Definition text_secondary : jsstring := js "var(--text-secondary)".

(** The closure [updateCounter] of [addCharacterCounter]: the state of
    the counter for a limit [maxLength] and the value of the
    textarea.  [maxLength] is an integer. *)
Definition updateCounter (maxLength : Z) (value : jsstring) : Counter :=
  let remaining := (maxLength - Z.of_nat (length value))%Z in
  {| textContent := NumberToString remaining ++ js " caracteres restantes";
     color :=
       if (remaining <? 50)%Z then amber
       else if (remaining <? 20)%Z then red
       else text_secondary |}.

(** [textarea.setAttribute(a, v)] *)
Definition setAttribute (a : string) (v : jsstring) (f : Field) : Field :=
  {| name := name f; type := type f; value := value f;
     defaultValue := defaultValue f; checked := checked f;
     attrs := <[ js a := v ]> (attrs f);
     borderColor := borderColor f |}.

(** [addCharacterCounter(textareaId, maxLength)] on the textarea found:
    the [maxlength] attribute is set, the counter element is appended
    to the parent of the textarea, and [updateCounter] runs once.  The
    counter element holds no control and no annotation. *)
Definition addCharacterCounter (maxLength : Z) (x : focus) : focus * Counter :=
  let x := with_target (setAttribute "maxlength" (NumberToString maxLength)) x in
  let x := appendChild (Elem []) x in
  (x, updateCounter maxLength (value (target x))).

(** ** Form analytics *)

(** An entry of [fieldInteractions]. *)
Record Interaction : Type := {
  focused : N;
  changes : N
}.

(** The names a plain object inherits from [Object.prototype]: for
    them [fieldInteractions[name]] is never [undefined]. *)
Definition object_prototype : list jsstring :=
  [ js "constructor"; js "hasOwnProperty"; js "isPrototypeOf";
    js "propertyIsEnumerable"; js "toLocaleString"; js "toString";
    js "valueOf"; js "__proto__"; js "__defineGetter__";
    js "__defineSetter__"; js "__lookupGetter__"; js "__lookupSetter__" ].

Definition inherited (k : jsstring) : bool :=
  bool_decide (k ∈ object_prototype).

(** The two listeners that [trackFormInteraction] gives every control,
    on the own properties of [fieldInteractions]; [now] is
    [Date.now()]. *)
Definition onFocus (k : jsstring) (now : N)
    (fi : gmap jsstring Interaction) : gmap jsstring Interaction :=
  match fi !! k with
  | Some _ => fi
  | None =>
      if inherited k then fi
      else <[ k := {| focused := now; changes := 0 |} ]> fi
  end.

Definition onChange (k : jsstring) (fi : gmap jsstring Interaction)
    : gmap jsstring Interaction :=
  match fi !! k with
  | Some e => <[ k := {| focused := focused e; changes := changes e + 1 |} ]> fi
  | None => fi
  end.

Inductive interaction : Type :=
| FocusOn (k : jsstring) (now : N)
| ChangeOn (k : jsstring).

Definition track (fi : gmap jsstring Interaction) (e : interaction)
    : gmap jsstring Interaction :=
  match e with
  | FocusOn k now => onFocus k now fi
  | ChangeOn k => onChange k fi
  end.

(** [fieldInteractions] after the events [es], from the empty object
    that [trackFormInteraction] starts with. *)
Definition tracked (es : list interaction) : gmap jsstring Interaction :=
  foldl track ∅ es.

Definition is_focus_on (k : jsstring) (e : interaction) : bool :=
  match e with
  | FocusOn k' _ => bool_decide (k' = k)
  | ChangeOn _ => false
  end.

Definition is_change_on (k : jsstring) (e : interaction) : bool :=
  match e with
  | ChangeOn k' => bool_decide (k' = k)
  | FocusOn _ _ => false
  end.

(** ** The page script: statements on a state *)

(** Statements that read and write a state [S] and may throw. *)
Definition St (S A : Type) : Type := S -> S * completion A.

Definition retS {S A : Type} (a : A) : St S A := fun s => (s, Normal a).

Definition throwS {S A : Type} (e : exn) : St S A := fun s => (s, Throw e).

Definition bindS {S A B : Type} (m : St S A) (k : A -> St S B) : St S B :=
  fun s =>
    match m s with
    | (s', Normal a) => k a s'
    | (s', Throw e) => (s', Throw e)
    end.

Definition thenS {S A B : Type} (m : St S A) (k : St S B) : St S B :=
  bindS m (fun _ => k).

Declare Scope script_scope.
Delimit Scope script_scope with script_scope.
Notation "m ';;;' k" := (thenS m k)
  (at level 100, right associativity) : script_scope.

(** ** Calls of the field functions *)

(** The argument of [validateField], [showFieldError] and
    [clearFieldError]: a control with its parent element, or a control
    that has none, for which [field.parentElement] is [null]. *)
Inductive element : Type :=
| Attached (x : focus)
| Detached (f : Field).

Definition field_of (e : element) : Field :=
  match e with
  | Attached x => target x
  | Detached f => f
  end.

(** [field.style.borderColor = c] *)
Definition style_borderColor (c : jsstring) : St element unit :=
  fun e =>
    (match e with
     | Attached x => Attached (with_target (set_borderColor c) x)
     | Detached f => Detached (set_borderColor c f)
     end, Normal tt).

(** [field.parentElement.querySelector('.field-error')] and, when it
    is not [null], [remove()]: a [TypeError] when [parentElement] is
    [null]. *)
Definition remove_shown_error : St element unit :=
  fun e =>
    match e with
    | Attached x => (Attached (default x (remove_error x)), Normal tt)
    | Detached _ => (e, Throw TypeError)
    end.

(** [field.parentElement.appendChild(errorDiv)] *)
Definition append_error (message : jsstring) : St element unit :=
  fun e =>
    match e with
    | Attached x =>
        (Attached (appendChild (FieldError (error_html message)) x), Normal tt)
    | Detached _ => (e, Throw TypeError)
    end.

Module Call.

Local Open Scope script_scope.

Definition clearFieldError : St element unit :=
  style_borderColor [] ;;; remove_shown_error.

Definition showFieldError (message : jsstring) : St element unit :=
  style_borderColor (js "#ef4444") ;;;
  remove_shown_error ;;;
  append_error message.

Definition validateField : St element bool :=
  fun e =>
    let field := field_of e in
    let value := trim (value field) in
    let isRequired := hasAttribute field "required" in
    (clearFieldError ;;;
     if isRequired && negb (truthy value) then
       showFieldError msg_required ;;; retS false
     else if bool_decide (type field = js "email") && truthy value
             && negb (validateEmail value) then
       showFieldError msg_email ;;; retS false
     else if bool_decide (type field = js "tel") && truthy value
             && negb (validatePhone value) then
       showFieldError msg_phone ;;; retS false
     else if hasAttribute field "minlength" then
       let minLength := parseInt (getAttribute field "minlength") in
       if length_lt value minLength then
         showFieldError (msg_minlength minLength) ;;; retS false
       else retS true
     else retS true) e.

End Call.

(** ** The page script: mobile menu *)

(** The [style] of a [span] of the menu button. *)
Record Span : Type := {
  transform : jsstring;
  opacity : jsstring
}.

(** [active]: whether [navLinks] has the class [active]; [spans]:
    [menuToggle.querySelectorAll('span')]. *)
Record Menu : Type := {
  active : bool;
  spans : list Span
}.

Definition set_active (a : bool) : St Menu unit :=
  fun m => ({| active := a; spans := spans m |}, Normal tt).

Definition set_transform (v : jsstring) (sp : Span) : Span :=
  {| transform := v; opacity := opacity sp |}.

Definition set_opacity (v : jsstring) (sp : Span) : Span :=
  {| transform := transform sp; opacity := v |}.

(** [spans[i].style.p = v]: a [TypeError] when [spans[i]] is
    [undefined]. *)
Definition set_span (i : nat) (g : Span -> Span) : St Menu unit :=
  fun m =>
    match spans m !! i with
    | Some sp =>
        ({| active := active m; spans := <[ i := g sp ]> (spans m) |},
         Normal tt)
    | None => (m, Throw TypeError)
    end.

Definition none : jsstring := js "none".
Definition bar_down : jsstring := js "rotate(45deg) translate(5px, 5px)".
Definition bar_up : jsstring := js "rotate(-45deg) translate(7px, -6px)".

Local Open Scope script_scope.

(** The click listener of [menuToggle]. *)
Definition menuClick : St Menu unit :=
  (fun m => set_active (negb (active m)) m) ;;;
  (fun m => set_span 0 (set_transform (if active m then bar_down else none)) m) ;;;
  (fun m => set_span 1 (set_opacity (if active m then js "0" else js "1")) m) ;;;
  (fun m => set_span 2 (set_transform (if active m then bar_up else none)) m).

(** The click listener of a link of the menu. *)
Definition linkClick (innerWidth : Z) : St Menu unit :=
  if (innerWidth <=? 768)%Z then
    set_active false ;;;
    set_span 0 (set_transform none) ;;;
    set_span 1 (set_opacity (js "1")) ;;;
    set_span 2 (set_transform none)
  else retS tt.

(** The [keydown] listener of the document. *)
Definition keydown (key : jsstring) : St Menu unit :=
  fun m =>
    if bool_decide (key = js "Escape") && active m then
      (set_active false ;;;
       (fun m => ({| active := active m;
                     spans := set_transform none <$> spans m |}, Normal tt)) ;;;
       set_span 1 (set_opacity (js "1"))) m
    else (m, Normal tt).

(** The function that [handleResize] debounces. *)
Definition onResize (innerWidth : Z) : St Menu unit :=
  fun m =>
    if (768 <? innerWidth)%Z && active m then set_active false m
    else (m, Normal tt).

(** The menu button draws a cross when [a], three bars otherwise. *)
Definition icon_shows (a : bool) (sp : list Span) : Prop :=
  exists s0 s1 s2 rest,
    sp = s0 :: s1 :: s2 :: rest
    /\ transform s0 = (if a then bar_down else none)
    /\ opacity s1 = (if a then js "0" else js "1")
    /\ transform s2 = (if a then bar_up else none).

(** ** The page script: debounce *)

(** What a function returned by [debounce(func, wait)] closes over:
    the variable [timeout], and with it the timers it has set that are
    still pending, with the arguments their callback [later] will pass
    on, and the calls of [func] made so far. *)
Record Debounced (A : Type) : Type := {
  timeout : option nat;
  waiting : list (nat * A);
  invoked : list A;
  next_timer : nat
}.
Arguments timeout {A} _.
Arguments waiting {A} _.
Arguments invoked {A} _.
Arguments next_timer {A} _.

Definition debounce {A : Type} : Debounced A :=
  {| timeout := None; waiting := []; invoked := []; next_timer := 0 |}.

(** [clearTimeout(timeout)]: nothing when [timeout] is [undefined] or
    names a timer that has run. *)
Definition clearTimeout {A : Type} (t : option nat) (w : list (nat * A))
    : list (nat * A) :=
  match t with
  | Some id => List.filter (fun p => negb (Nat.eqb (fst p) id)) w
  | None => w
  end.

(** [executedFunction(...args)] *)
Definition executedFunction {A : Type} (args : A) (d : Debounced A)
    : Debounced A :=
  {| timeout := Some (next_timer d);
     waiting := clearTimeout (timeout d) (waiting d) ++ [(next_timer d, args)];
     invoked := invoked d;
     next_timer := S (next_timer d) |}.

(** The timer [id] runs its callback [later], if it is pending. *)
Definition later {A : Type} (id : nat) (d : Debounced A) : Debounced A :=
  match List.find (fun p => Nat.eqb (fst p) id) (waiting d) with
  | Some (_, args) =>
      let w := List.filter (fun p => negb (Nat.eqb (fst p) id)) (waiting d) in
      {| timeout := timeout d;
         waiting := clearTimeout (timeout d) w;
         invoked := invoked d ++ [args];
         next_timer := next_timer d |}
  | None => d
  end.

Inductive debounce_event (A : Type) : Type :=
| Invoke (args : A)
| Elapse (id : nat).
Arguments Invoke {A} args.
Arguments Elapse {A} id.

Definition debounce_step {A : Type} (d : Debounced A) (e : debounce_event A)
    : Debounced A :=
  match e with
  | Invoke args => executedFunction args d
  | Elapse id => later id d
  end.

(** The arguments of the calls among the events, oldest first. *)
Definition calls {A : Type} (es : list (debounce_event A)) : list A :=
  omap (fun e => match e with Invoke args => Some args | Elapse _ => None end)
       es.

Definition debounce_run {A : Type} (es : list (debounce_event A))
    : Debounced A :=
  foldl debounce_step debounce es.

(** ** The page script: carousel *)

(** [currentSlide] and, for each element of [slides], whether it has
    the class [active]. *)
Record Carousel : Type := {
  currentSlide : nat;
  slides : list bool
}.

(** [slides[i].classList.add/remove('active')]: a [TypeError] when
    [slides[i]] is [undefined]. *)
Definition set_slide (i : nat) (a : bool) : St Carousel unit :=
  fun c =>
    match slides c !! i with
    | Some _ =>
        ({| currentSlide := currentSlide c; slides := <[ i := a ]> (slides c) |},
         Normal tt)
    | None => (c, Throw TypeError)
    end.

Definition nextSlide : St Carousel unit :=
  (fun c => set_slide (currentSlide c) false c) ;;;
  (fun c =>
     ({| currentSlide := (currentSlide c + 1) mod length (slides c);
         slides := slides c |}, Normal tt)) ;;;
  (fun c => set_slide (currentSlide c) true c).

(** A turn of [setInterval(nextSlide, 5000)]: an exception that leaves
    the callback is dropped. *)
Definition tick (c : Carousel) : Carousel := fst (nextSlide c).

Fixpoint ticks (n : nat) (c : Carousel) : Carousel :=
  match n with
  | O => c
  | S n' => ticks n' (tick c)
  end.

(** The slide [i], and no other slide, has the class [active]. *)
Definition shows_only (i : nat) (sl : list bool) : Prop :=
  forall j, (j < length sl)%nat -> sl !! j = Some (bool_decide (j = i)).

(** [String.prototype.slice(start, end)] *)
Definition slice (start end_ : Z) (s : jsstring) : jsstring :=
  let len := Z.of_nat (length s) in
  let from := if (start <? 0)%Z then Z.max (len + start) 0 else Z.min start len in
  let to := if (end_ <? 0)%Z then Z.max (len + end_) 0 else Z.min end_ len in
  take (Z.to_nat (to - from)) (drop (Z.to_nat from) s).

(** [bgImage.slice(5, -2)], the address that the carousel preloads. *)
Definition preload_url (bgImage : jsstring) : jsstring := slice 5 (-2) bgImage.

(** ** The page script: newsletter form *)

Record NlButton : Type := {
  nl_innerHTML : jsstring;
  nl_background : jsstring
}.

(** [nl_form]: the children of [.newsletter-form]; [nl_button]: its
    first [button], if any; [nl_restores]: the pending timers of three
    seconds, oldest first, each with the [originalHTML] it closes
    over; [nl_page]: the page, for its notifications. *)
Record Newsletter : Type := {
  nl_form : list node;
  nl_button : option NlButton;
  nl_restores : list jsstring;
  nl_page : Page
}.

(** [<i class="fas fa-check"></i>] *)
Definition check_mark : jsstring :=
  js "<i class=" ++ [quote] ++ js "fas fa-check" ++ [quote] ++ js "></i>".

Definition green_gradient : jsstring :=
  js "linear-gradient(135deg, #10b981 0%, #059669 100%)".

(** "¡Gracias por suscribirte!" *)
Definition msg_subscribed : jsstring := [161] ++ js "Gracias por suscribirte!".

(** [newsletterForm.querySelector('input[type="email"]')] *)
Definition email_input (cs : list node) : option Field :=
  List.find (fun f => bool_decide (type f = js "email")) (fields cs).

(** The submit listener of the newsletter form.  An exception of
    [showNotification] leaves the listener before it sets its
    timer. *)
Definition newsletterSubmit (v : variant) : St Newsletter unit :=
  fun n =>
    match email_input (nl_form n) with
    | None => (n, Throw TypeError)
    | Some input =>
        let _email := value input in
        match nl_button n with
        | None => (n, Throw TypeError)
        | Some button =>
            let originalHTML := nl_innerHTML button in
            let button :=
              {| nl_innerHTML := check_mark;
                 nl_background := green_gradient |} in
            match showNotification v msg_subscribed success (nl_page n) with
            | (page, Normal _) =>
                ({| nl_form := nl_form n;
                    nl_button := Some button;
                    nl_restores := nl_restores n ++ [originalHTML];
                    nl_page := page |},
                 Normal tt)
            | (page, Throw e) =>
                ({| nl_form := nl_form n;
                    nl_button := Some button;
                    nl_restores := nl_restores n;
                    nl_page := page |},
                 Throw e)
            end
        end
    end.

(** The oldest pending timer of the newsletter form runs.  The timers
    all wait three seconds, so they run in the order in which they
    were set. *)
Definition newsletterTimer (n : Newsletter) : Newsletter :=
  match nl_restores n with
  | originalHTML :: rest =>
      {| nl_form := reset (nl_form n);
         nl_button :=
           (fun _ => {| nl_innerHTML := originalHTML; nl_background := [] |})
             <$> nl_button n;
         nl_restores := rest;
         nl_page := nl_page n |}
  | [] => n
  end.

Local Close Scope script_scope.

(** ** Further samples and invariants *)

Definition blank_required_focus : focus :=
  {| before := []; target := text_field "name" "email" "   " true;
     after := [] |}.

Definition blank_optional_focus : focus :=
  {| before := [];
     target := with_minlength "3" (text_field "phone" "tel" " " false);
     after := [] |}.



Definition closed_menu : Menu :=
  {| active := false;
     spans := [ {| transform := []; opacity := [] |};
                {| transform := []; opacity := [] |};
                {| transform := []; opacity := [] |} ] |}.

Definition open_menu : Menu :=
  {| active := true;
     spans := [ {| transform := bar_down; opacity := [] |};
                {| transform := []; opacity := js "0" |};
                {| transform := bar_up; opacity := [] |} ] |}.

Definition bare_menu : Menu := {| active := false; spans := [] |}.

Definition two_active_carousel : Carousel :=
  {| currentSlide := 0; slides := [true; true; false] |}.

Definition newsletter_sample : Newsletter :=
  {| nl_form := [Input (text_field "email" "email" "not an address" true)];
     nl_button :=
       Some {| nl_innerHTML := js "Suscribirse"; nl_background := [] |};
     nl_restores := [];
     nl_page := page_of [] None |}.

(** What holds of a debounced function after the events [es]. *)
Record debounced_ok {A : Type} (es : list (debounce_event A))
    (d : Debounced A) : Prop := {
  ok_waiting :
    waiting d = []
    \/ exists id args cs,
         waiting d = [(id, args)] /\ timeout d = Some id
         /\ calls es = cs ++ [args] /\ sublist (invoked d) cs;
  ok_invoked : sublist (invoked d) (calls es)
}.

(* ================================================================== *)
(** * Properties *)
(* ================================================================== *)

(** ** The primitives on samples *)

Example trim_sample : trim (js "  a b  ") = js "a b" /\ trim (js "   ") = [].
Proof. split; reflexivity. Qed.

Example parseInt_samples :
  parseInt (js "8") = Num 8
  /\ parseInt (js "  -12px") = Num (-12)
  /\ parseInt (js "0x1A") = Num 26
  /\ parseInt (js "3.7") = Num 3
  /\ parseInt (js "abc") = NaN
  /\ parseInt (js "") = NaN
  /\ parseInt (js "9007199254740993") = Num 9007199254740992
  /\ parseInt (js "1" ++ List.repeat 48 400) = Infinity false.
Proof. repeat split. Qed.

Example ToString_samples :
  NumberToString 0 = js "0"
  /\ NumberToString (-12) = js "-12"
  /\ NumberToString 9007199254740993 = js "9007199254740992"
  /\ NumberToString 123456789012345678901 = js "123456789012345680000"
  /\ NumberToString (10 ^ 21) = js "1e+21"
  /\ NumberToString (2 ^ 70) = js "1.1805916207174113e+21"
  /\ NumberToString 123456789012345678901234 = js "1.2345678901234569e+23"
  /\ NumberToString 99999999999999999999999 = js "1e+23"
  /\ NumberToString (2 ^ 100 + 12345) = js "1.2676506002282294e+30"
  /\ NumberToString (- 2 ^ 1024) = js "-Infinity"
  /\ ToString (parseInt (js "x")) = js "NaN".
Proof. vm_compute. repeat split. Qed.

Example msg_minlength_sample :
  msg_minlength (parseInt (js "10"))
  = js "M" ++ [237] ++ js "nimo 10 caracteres requeridos".
Proof. reflexivity. Qed.

Example validateEmail_samples :
  validateEmail (js "a@b.co") = true
  /\ validateEmail (js "a@b") = false
  /\ validateEmail (js "a b@c.d") = false
  /\ validateEmail (js "a@@b.c") = false
  /\ validateEmail (js "@b.c") = false.
Proof. repeat split. Qed.

Example validatePhone_samples :
  validatePhone (js "+1 (555) 123-4567") = true
  /\ validatePhone (js "123456") = false
  /\ validatePhone (js "1234567x") = false
  /\ validatePhone (js "") = false.
Proof. repeat split. Qed.

(** ** Regular expressions: [test] only accepts words of the language *)

Section RegExpFacts.

Lemma nullable_sound r : nullable r = true -> Lang r [].
Proof.
  induction r; simpl; intros Hn; try discriminate.
  - constructor.
  - apply andb_true_iff in Hn as [H1 H2].
    change (@nil N) with (@nil N ++ []). constructor; auto.
  - apply orb_true_iff in Hn as [H1 | H2].
    + apply L_alt_l; auto.
    + apply L_alt_r; auto.
  - constructor.
Qed.

Lemma deriv_sound r : forall c s, Lang (deriv c r) s -> Lang r (c :: s).
Proof.
  induction r; simpl; intros c s HL.
  - inversion HL.
  - inversion HL.
  - destruct (p c) eqn:Hp; inversion HL; subst. constructor; exact Hp.
  - destruct (nullable r1) eqn:Hn.
    + inversion HL as [| | | ? ? ? H1 | ? ? ? H2 | |]; subst.
      * inversion H1; subst.
        change (c :: s1 ++ s2) with ((c :: s1) ++ s2). constructor; auto.
      * change (c :: s) with ([] ++ c :: s).
        constructor; [apply nullable_sound; exact Hn | auto].
    + inversion HL; subst.
      change (c :: s1 ++ s2) with ((c :: s1) ++ s2). constructor; auto.
  - inversion HL; subst; [apply L_alt_l | apply L_alt_r]; auto.
  - inversion HL; subst.
    change (c :: s1 ++ s2) with ((c :: s1) ++ s2). constructor; auto.
Qed.

Lemma test_sound s : forall r, test r s = true -> Lang r s.
Proof.
  induction s as [| c s IH]; simpl; intros r Ht.
  - apply nullable_sound; exact Ht.
  - apply deriv_sound, IH, Ht.
Qed.

Lemma nullable_complete r s : Lang r s -> s = [] -> nullable r = true.
Proof.
  induction 1 as [| p c Hp | r1 r2 s1 s2 _ IH1 _ IH2 | r1 r2 s _ IH
                 | r1 r2 s _ IH | r | r s1 s2 _ _ _ _]; intros Hs; simpl.
  - reflexivity.
  - discriminate.
  - apply app_eq_nil in Hs as [-> ->]. rewrite IH1, IH2; reflexivity.
  - rewrite IH by exact Hs. reflexivity.
  - rewrite IH by exact Hs. apply orb_true_r.
  - reflexivity.
  - reflexivity.
Qed.

Lemma deriv_complete r w :
  Lang r w -> forall c s, w = c :: s -> Lang (deriv c r) s.
Proof.
  induction 1 as [| p c' Hp | r1 r2 s1 s2 H1 IH1 H2 IH2 | r1 r2 s' _ IH
                 | r1 r2 s' _ IH | r | r s1 s2 H1 IH1 H2 IH2];
    intros c s Hw; simpl.
  - discriminate.
  - injection Hw as -> <-. rewrite Hp. constructor.
  - destruct s1 as [| c1 s1'].
    + simpl in Hw. rewrite (nullable_complete r1 [] H1 eq_refl).
      apply L_alt_r. apply IH2. exact Hw.
    + simpl in Hw. injection Hw as -> <-.
      assert (Hc : Lang (Cat (deriv c r1) r2) (s1' ++ s2)).
      { constructor; [apply IH1; reflexivity | exact H2]. }
      destruct (nullable r1); [apply L_alt_l |]; exact Hc.
  - apply L_alt_l. apply IH. exact Hw.
  - apply L_alt_r. apply IH. exact Hw.
  - discriminate.
  - destruct s1 as [| c1 s1'].
    + simpl in Hw. apply (IH2 c s Hw).
    + simpl in Hw. injection Hw as -> <-.
      constructor; [apply IH1; reflexivity | exact H2].
Qed.

Lemma test_complete s : forall r, Lang r s -> test r s = true.
Proof.
  induction s as [| c s IH]; simpl; intros r HL.
  - apply (nullable_complete r [] HL eq_refl).
  - apply IH. apply (deriv_complete r (c :: s) HL c s eq_refl).
Qed.

Lemma Lang_star_class_intro p s :
  Forall (fun c => p c = true) s -> Lang (Star (Class p)) s.
Proof.
  induction 1 as [| c s Hc _ IH]; [constructor |].
  change (c :: s) with ([c] ++ s). constructor; [constructor; exact Hc | exact IH].
Qed.

Lemma Lang_plus_class_intro p s :
  s <> [] -> Forall (fun c => p c = true) s -> Lang (Plus (Class p)) s.
Proof.
  intros Hne Hall. destruct Hall as [| c s Hc Hs]; [contradiction |].
  change (c :: s) with ([c] ++ s).
  constructor; [constructor; exact Hc | apply Lang_star_class_intro, Hs].
Qed.

Lemma Lang_class_inv p s :
  Lang (Class p) s -> exists c, s = [c] /\ p c = true.
Proof. intros HL; inversion HL; subst; eauto. Qed.

Lemma Lang_cat_inv r1 r2 s :
  Lang (Cat r1 r2) s -> exists s1 s2, s = s1 ++ s2 /\ Lang r1 s1 /\ Lang r2 s2.
Proof. intros HL; inversion HL; subst; eauto. Qed.

Lemma Lang_star_class p s :
  Lang (Star (Class p)) s -> Forall (fun c => p c = true) s.
Proof.
  intros HL. remember (Star (Class p)) as r eqn:Hr.
  induction HL; try discriminate.
  - constructor.
  - injection Hr as ->.
    apply Lang_class_inv in HL1 as (c & -> & Hc).
    simpl. constructor; auto.
Qed.

Lemma Lang_plus_class p s :
  Lang (Plus (Class p)) s -> s <> [] /\ Forall (fun c => p c = true) s.
Proof.
  intros HL. apply Lang_cat_inv in HL as (s1 & s2 & -> & H1 & H2).
  apply Lang_class_inv in H1 as (c & -> & Hc).
  apply Lang_star_class in H2. split; [discriminate |].
  simpl. constructor; auto.
Qed.

End RegExpFacts.

(** The shape of an accepted address: one [@], a dot after it, and no
    white space or further [@] in the three parts. *)
Lemma validateEmail_shape s :
  validateEmail s = true ->
  exists x y z,
    s = x ++ at_sign :: y ++ dot :: z
    /\ x <> [] /\ y <> [] /\ z <> []
    /\ Forall (fun c => not_space_at c = true) (x ++ y ++ z).
Proof.
  unfold validateEmail. intros Ht. apply test_sound in Ht.
  apply Lang_cat_inv in Ht as (x & s1 & -> & Hx & Ht).
  apply Lang_cat_inv in Ht as (a & s2 & -> & Ha & Ht).
  apply Lang_cat_inv in Ht as (y & s3 & -> & Hy & Ht).
  apply Lang_cat_inv in Ht as (d & z & -> & Hd & Hz).
  apply Lang_class_inv in Ha as (ca & -> & Hca).
  apply Lang_class_inv in Hd as (cd & -> & Hcd).
  apply N.eqb_eq in Hca, Hcd. subst ca cd.
  apply Lang_plus_class in Hx as [Hx1 Hx2].
  apply Lang_plus_class in Hy as [Hy1 Hy2].
  apply Lang_plus_class in Hz as [Hz1 Hz2].
  exists x, y, z. repeat split; auto.
  rewrite !Forall_app. auto.
Qed.

(** Every string of that shape is accepted. *)
Lemma validateEmail_accepts x y z :
  x <> [] -> y <> [] -> z <> [] ->
  Forall (fun c => not_space_at c = true) (x ++ y ++ z) ->
  validateEmail (x ++ at_sign :: y ++ dot :: z) = true.
Proof.
  intros Hx Hy Hz Hall.
  apply Forall_app in Hall as [Hax Hall].
  apply Forall_app in Hall as [Hay Haz].
  unfold validateEmail. apply test_complete. unfold re_email.
  constructor; [apply Lang_plus_class_intro; assumption |].
  change (at_sign :: y ++ dot :: z) with ([at_sign] ++ y ++ dot :: z).
  constructor; [constructor; apply N.eqb_refl |].
  constructor; [apply Lang_plus_class_intro; assumption |].
  change (dot :: z) with ([dot] ++ z).
  constructor; [constructor; apply N.eqb_refl |].
  apply Lang_plus_class_intro; assumption.
Qed.

Lemma validatePhone_iff s :
  validatePhone s = true
  <-> s <> [] /\ Forall (fun c => phone_char c = true) s
      /\ (7 <= length (strip_non_digits s))%nat.
Proof.
  unfold validatePhone. rewrite andb_true_iff, Nat.leb_le. split.
  - intros [Ht Hl]. apply test_sound, Lang_plus_class in Ht as [Hne Hall].
    auto.
  - intros (Hne & Hall & Hl). split; [| exact Hl].
    apply test_complete, Lang_plus_class_intro; assumption.
Qed.

Lemma not_space_at_neq c : not_space_at c = true -> c <> at_sign.
Proof.
  unfold not_space_at. intros Hc ->.
  rewrite N.eqb_refl, orb_true_r in Hc. discriminate.
Qed.

(** C3. For every string [s] that contains no [@], or that contains an
    [@] with no [.] anywhere after it, [validateEmail s] is [false];
    and [validateEmail "a@b.co"] is [true]. *)
Theorem validateEmail_rejects_and_accepts :
  (forall s : jsstring,
      at_sign ∉ s \/ (exists p q, s = p ++ at_sign :: q /\ dot ∉ q) ->
      validateEmail s = false)
  /\ validateEmail (js "a@b.co") = true.
Proof.
  split; [| reflexivity].
  intros s Hs. destruct (validateEmail s) eqn:Hv; [exfalso | reflexivity].
  apply validateEmail_shape in Hv
    as (x & y & z & -> & Hx & Hy & Hz & Hall).
  apply Forall_app in Hall as [Hax Hall].
  apply Forall_app in Hall as [Hay Haz].
  destruct Hs as [Hno | (p & q & Heq & Hq)].
  - apply Hno. apply elem_of_app. right. left.
  - (* the only [@] is the one found by the pattern, so [q] holds the dot *)
    assert (Hp : p = x /\ q = y ++ dot :: z).
    { clear Hq Hx Hy Hz. revert p Heq Hax.
      induction x as [| c x IH]; intros p Heq Hax.
      - destruct p as [| c' p]; simpl in *.
        + injection Heq as <-. auto.
        + injection Heq as <- Heq. exfalso.
          assert (Hin : at_sign ∈ y ++ dot :: z).
          { rewrite Heq. apply elem_of_app. right. left. }
          apply elem_of_app in Hin as [Hin | Hin].
          * rewrite Forall_forall in Hay. apply Hay in Hin.
            apply not_space_at_neq in Hin. congruence.
          * apply elem_of_cons in Hin as [Hin | Hin]; [discriminate |].
            rewrite Forall_forall in Haz. apply Haz in Hin.
            apply not_space_at_neq in Hin. congruence.
      - apply Forall_cons in Hax as [Hc Hax].
        destruct p as [| c' p]; simpl in *.
        + injection Heq as -> _. apply not_space_at_neq in Hc. congruence.
        + injection Heq as -> Heq.
          destruct (IH p Heq Hax) as [-> ->]. auto. }
    destruct Hp as [_ ->]. apply Hq. apply elem_of_app. right. left.
Qed.

Lemma C3_witness_rejects :
  validateEmail (js "a.b@c") = false /\ validateEmail (js "abc") = false.
Proof.
  split.
  - apply (proj1 validateEmail_rejects_and_accepts). right.
    exists (js "a.b"), (js "c"). split; [reflexivity |].
    intros Hin. apply list_elem_of_In in Hin. simpl in Hin.
    destruct Hin as [Hin | []]. discriminate.
  - apply (proj1 validateEmail_rejects_and_accepts). left.
    intros Hin. apply list_elem_of_In in Hin. simpl in Hin.
    repeat (destruct Hin as [Hin | Hin]; [discriminate |]). exact Hin.
Defined.

(** C4. For every string [s] with fewer than 7 digits left once the
    non-digits are removed, [validatePhone s] is [false];
    [validatePhone "+1 (555) 123-4567"] is [true]; and [validatePhone]
    is [true] only for a non-empty string made of digits, white space,
    [+], [-], [(] and [)]. *)
Theorem validatePhone_rejects_and_accepts :
  (forall s : jsstring,
      (length (strip_non_digits s) < 7)%nat -> validatePhone s = false)
  /\ validatePhone (js "+1 (555) 123-4567") = true
  /\ (forall s : jsstring,
        validatePhone s = true ->
        s <> []
        /\ Forall (fun c => is_digit c = true \/ is_space c = true
                            \/ c = 43 \/ c = 45 \/ c = 40 \/ c = 41) s).
Proof.
  split; [| split; [reflexivity |]].
  - intros s Hlen. unfold validatePhone.
    apply andb_false_iff. right. apply Nat.leb_gt. exact Hlen.
  - intros s Hv. unfold validatePhone in Hv.
    apply andb_true_iff in Hv as [Ht _].
    apply test_sound, Lang_plus_class in Ht as [Hne Hall].
    split; [exact Hne |].
    eapply Forall_impl; [exact Hall |].
    intros c Hc. unfold phone_char in Hc.
    do 4 (apply orb_true_iff in Hc as [Hc | Hc]; [| apply N.eqb_eq in Hc; auto 10]).
    apply orb_true_iff in Hc as [Hc | Hc]; auto.
Qed.

Lemma C4_witness_rejects :
  validatePhone (js "555-1234") = true
  /\ validatePhone (js "555-123") = false
  /\ js "+1 (555) 123-4567" <> [].
Proof.
  split; [reflexivity |]. split.
  - apply (proj1 validatePhone_rejects_and_accepts). vm_compute. lia.
  - apply (proj2 (proj2 validatePhone_rejects_and_accepts)). reflexivity.
Defined.

(** ** The display tree *)

Lemma node_ind (P : node -> Prop) :
  (forall f, P (Input f)) ->
  (forall h, P (FieldError h)) ->
  (forall cs, Forall P cs -> P (Elem cs)) ->
  forall n, P n.
Proof.
  intros HI HE HEl. fix IH 1. intros [f | h | cs].
  - apply HI.
  - apply HE.
  - apply HEl. induction cs as [| c cs IHcs]; constructor.
    + apply IH.
    + exact IHcs.
Qed.

Lemma fields_cons c cs : fields (c :: cs) = fields_of c ++ fields cs.
Proof. reflexivity. Qed.

Lemma fields_app cs1 cs2 : fields (cs1 ++ cs2) = fields cs1 ++ fields cs2.
Proof.
  unfold fields. rewrite List.map_app. apply concat_app.
Qed.

Lemma errors_cons c cs : errors (c :: cs) = errors_of c ++ errors cs.
Proof. reflexivity. Qed.

Lemma errors_app cs1 cs2 : errors (cs1 ++ cs2) = errors cs1 ++ errors cs2.
Proof.
  unfold errors. rewrite List.map_app. apply concat_app.
Qed.

Lemma fields_siblings x :
  fields (siblings x) = fields (before x) ++ target x :: fields (after x).
Proof. unfold siblings. rewrite fields_app, fields_cons. reflexivity. Qed.

Lemma errors_siblings x :
  errors (siblings x) = errors (before x) ++ errors (after x).
Proof. unfold siblings. rewrite errors_app, errors_cons. reflexivity. Qed.

Lemma remove_error_in_Elem cs :
  remove_error_in (Elem cs) = Elem <$> remove_first_error cs.
Proof. reflexivity. Qed.

Lemma remove_first_error_spec cs : removal_spec cs.
Proof.
  assert (H : forall n, match n with Elem cs => removal_spec cs | _ => True end).
  { induction n as [f | h | cs0 IH] using node_ind; try exact I.
    unfold removal_spec.
    induction IH as [| c cs1 Hc _ IHcs]; simpl; [reflexivity |].
    destruct c as [f | h | cs2].
    - simpl. destruct (remove_first_error cs1) as [cs' |]; simpl in *.
      + rewrite !fields_cons. destruct IHcs as [-> Herr]. auto.
      + exact IHcs.
    - rewrite errors_cons. simpl. auto.
    - rewrite remove_error_in_Elem. unfold removal_spec in Hc.
      destruct (remove_first_error cs2) as [cs2' |]; simpl.
      + destruct Hc as [Hf He]. rewrite !fields_cons, !errors_cons. simpl.
        fold (fields cs2) (fields cs2') (errors cs2) (errors cs2').
        rewrite Hf. split; [reflexivity |].
        rewrite He. reflexivity.
      + destruct (remove_first_error cs1) as [cs' |]; simpl in *.
        * rewrite !fields_cons, !errors_cons. simpl.
          fold (errors cs2). rewrite Hc. simpl.
          destruct IHcs as [-> Herr]. auto.
        * rewrite errors_cons. simpl. fold (errors cs2).
          rewrite Hc, IHcs. reflexivity. }
  exact (H (Elem cs)).
Qed.

Lemma remove_first_error_fields cs cs' :
  remove_first_error cs = Some cs' -> fields cs' = fields cs.
Proof.
  intros H. pose proof (remove_first_error_spec cs) as Hs.
  unfold removal_spec in Hs. rewrite H in Hs. apply Hs.
Qed.

Lemma remove_first_error_errors cs :
  errors (default cs (remove_first_error cs)) = tail (errors cs).
Proof.
  pose proof (remove_first_error_spec cs) as Hs. unfold removal_spec in Hs.
  destruct (remove_first_error cs) as [cs' |]; simpl.
  - destruct Hs as [_ ->]. reflexivity.
  - rewrite Hs. reflexivity.
Qed.

Lemma remove_first_error_None cs :
  remove_first_error cs = None -> errors cs = [].
Proof.
  intros H. pose proof (remove_first_error_spec cs) as Hs.
  unfold removal_spec in Hs. rewrite H in Hs. exact Hs.
Qed.

Lemma remove_first_error_Some cs cs' :
  remove_first_error cs = Some cs' -> errors cs <> [].
Proof.
  intros H. pose proof (remove_first_error_spec cs) as Hs.
  unfold removal_spec in Hs. rewrite H in Hs. destruct Hs as [_ ->].
  discriminate.
Qed.

(** ** Annotations of one control *)


Lemma remove_error_errors x :
  errors (siblings (default x (remove_error x))) = tail (errors (siblings x)).
Proof.
  unfold remove_error.
  destruct (remove_first_error (before x)) as [b |] eqn:Hb; simpl.
  - rewrite !errors_siblings. simpl.
    pose proof (remove_first_error_errors (before x)) as Hr.
    rewrite Hb in Hr. simpl in Hr. rewrite Hr.
    apply remove_first_error_Some in Hb.
    destruct (errors (before x)); [congruence | reflexivity].
  - apply remove_first_error_None in Hb.
    pose proof (remove_first_error_errors (after x)) as Hr.
    destruct (remove_first_error (after x)) as [a |]; simpl in *;
      rewrite !errors_siblings; simpl; rewrite Hb; simpl.
    + exact Hr.
    + exact Hr.
Qed.

Lemma remove_error_fields x :
  fields (before (default x (remove_error x))) = fields (before x)
  /\ fields (after (default x (remove_error x))) = fields (after x)
  /\ target (default x (remove_error x)) = target x.
Proof.
  unfold remove_error.
  destruct (remove_first_error (before x)) as [b |] eqn:Hb; simpl.
  - apply remove_first_error_fields in Hb. auto.
  - destruct (remove_first_error (after x)) as [a |] eqn:Ha; simpl; auto.
    apply remove_first_error_fields in Ha. auto.
Qed.

Lemma clearFieldError_unfold x :
  clearFieldError x
  = default (with_target (set_borderColor []) x)
      (remove_error (with_target (set_borderColor []) x)).
Proof.
  unfold clearFieldError. destruct (remove_error _); reflexivity.
Qed.

Lemma showFieldError_unfold m x :
  showFieldError m x
  = appendChild (FieldError (error_html m))
      (default (with_target (set_borderColor (js "#ef4444")) x)
         (remove_error (with_target (set_borderColor (js "#ef4444")) x))).
Proof.
  unfold showFieldError. destruct (remove_error _); reflexivity.
Qed.

Lemma errors_with_target g x :
  errors (siblings (with_target g x)) = errors (siblings x).
Proof. rewrite !errors_siblings. reflexivity. Qed.

Lemma clearFieldError_errors x :
  errors (siblings (clearFieldError x)) = tail (errors (siblings x)).
Proof.
  rewrite clearFieldError_unfold, remove_error_errors, errors_with_target.
  reflexivity.
Qed.

Lemma showFieldError_errors m x :
  errors (siblings (showFieldError m x))
  = tail (errors (siblings x)) ++ [error_html m].
Proof.
  rewrite showFieldError_unfold.
  set (y := default _ _).
  assert (Hy : errors (siblings y) = tail (errors (siblings x))).
  { unfold y. rewrite remove_error_errors, errors_with_target. reflexivity. }
  rewrite <- Hy. rewrite !errors_siblings. unfold appendChild. simpl.
  rewrite errors_app. simpl. rewrite app_assoc. reflexivity.
Qed.

Lemma clearFieldError_fields x :
  fields (before (clearFieldError x)) = fields (before x)
  /\ fields (after (clearFieldError x)) = fields (after x)
  /\ target (clearFieldError x) = set_borderColor [] (target x).
Proof.
  rewrite clearFieldError_unfold.
  destruct (remove_error_fields (with_target (set_borderColor []) x))
    as (H1 & H2 & H3).
  rewrite H1, H2, H3. auto.
Qed.

Lemma showFieldError_fields m x :
  fields (before (showFieldError m x)) = fields (before x)
  /\ fields (after (showFieldError m x)) = fields (after x)
  /\ target (showFieldError m x) = set_borderColor (js "#ef4444") (target x).
Proof.
  rewrite showFieldError_unfold.
  destruct (remove_error_fields (with_target (set_borderColor (js "#ef4444")) x))
    as (H1 & H2 & H3).
  unfold appendChild. simpl. rewrite fields_app, H1, H2, H3. simpl.
  rewrite app_nil_r. auto.
Qed.

(** [first_failing] is the first check of the order that fails: the
    checks before it pass. *)
Lemma first_failing_first f :
  match first_failing f with
  | Some c =>
      fails c f = true
      /\ forall c', (rank c' < rank c)%nat -> fails c' f = false
  | None => forall c, fails c f = false
  end.
Proof.
  unfold first_failing. cbn [List.find].
  destruct (fails Required f) eqn:H1.
  { split; [exact H1 |]. intros c' Hc'. destruct c'; simpl in Hc'; lia. }
  destruct (fails Email f) eqn:H2.
  { split; [exact H2 |]. intros c' Hc'. destruct c'; simpl in Hc'; auto; lia. }
  destruct (fails Phone f) eqn:H3.
  { split; [exact H3 |]. intros c' Hc'. destruct c'; simpl in Hc'; auto; lia. }
  destruct (fails MinLength f) eqn:H4.
  { split; [exact H4 |]. intros c' Hc'. destruct c'; simpl in Hc'; auto; lia. }
  intros c. destruct c; assumption.
Qed.

(** [validateField] runs the checks in the order required, email,
    phone, minimum length, stops at the first that fails, and shows the
    message of that check alone. *)
Lemma validateField_cases x :
  validateField x =
  match first_failing (target x) with
  | Some c =>
      (showFieldError (check_message c (target x)) (clearFieldError x), false)
  | None => (clearFieldError x, true)
  end.
Proof.
  unfold validateField, first_failing, fails. simpl.
  destruct (hasAttribute (target x) "required" && _); [reflexivity |].
  destruct (bool_decide (type (target x) = js "email") && _ && _);
    [reflexivity |].
  destruct (bool_decide (type (target x) = js "tel") && _ && _);
    [reflexivity |].
  destruct (hasAttribute (target x) "minlength"); simpl; [| reflexivity].
  destruct (length_lt _ _); reflexivity.
Qed.

Lemma validateField_valid x :
  snd (validateField x) = bool_decide (first_failing (target x) = None).
Proof.
  rewrite validateField_cases.
  destruct (first_failing (target x)); reflexivity.
Qed.

Lemma valid_first_failing f : valid f = bool_decide (first_failing f = None).
Proof. unfold valid. rewrite validateField_valid. reflexivity. Qed.

Lemma validateField_snd x : snd (validateField x) = valid (target x).
Proof. rewrite validateField_valid, valid_first_failing. reflexivity. Qed.

Lemma validateField_fields x :
  fields (before (fst (validateField x))) = fields (before x)
  /\ fields (after (fst (validateField x))) = fields (after x)
  /\ set_borderColor [] (target (fst (validateField x)))
     = set_borderColor [] (target x).
Proof.
  rewrite validateField_cases.
  destruct (clearFieldError_fields x) as (H1 & H2 & H3).
  destruct (first_failing (target x)) as [c |]; cbn [fst snd].
  - destruct (showFieldError_fields (check_message c (target x))
                (clearFieldError x)) as (G1 & G2 & G3).
    rewrite G1, G2, G3, H1, H2, H3. auto.
  - rewrite H1, H2, H3. auto.
Qed.

(** X30.  [validateField] evaluates the checks in
    the order required, email, phone, minimum length, returns [false]
    with the message of the first failing check and lets no later check
    speak; so, when the parent element of the field held at most one
    error annotation before the call, it holds after the call exactly
    the annotation of the first failing check, or none when every check
    passes. *)
Theorem validateField_first_failing_check (x : focus)
    (Hone : (length (errors (siblings x)) <= 1)%nat) :
  validateField x
  = match first_failing (target x) with
    | Some c =>
        (showFieldError (check_message c (target x)) (clearFieldError x), false)
    | None => (clearFieldError x, true)
    end
  /\ errors (siblings (fst (validateField x)))
     = match first_failing (target x) with
       | Some c => [error_html (check_message c (target x))]
       | None => []
       end
  /\ (length (errors (siblings (fst (validateField x)))) <= 1)%nat
  /\ match first_failing (target x) with
     | Some c =>
         fails c (target x) = true
         /\ forall c', (rank c' < rank c)%nat -> fails c' (target x) = false
     | None => forall c, fails c (target x) = false
     end.
Proof.
  split; [apply validateField_cases |].
  pose proof (first_failing_first (target x)) as Hfirst.
  assert (Ht : tail (errors (siblings x)) = []).
  { destruct (errors (siblings x)) as [| e [| e' l]]; simpl in *;
      [reflexivity | reflexivity | lia]. }
  rewrite validateField_cases.
  destruct (first_failing (target x)) as [c |]; cbn [fst snd].
  - rewrite showFieldError_errors, clearFieldError_errors, Ht. simpl. auto.
  - rewrite clearFieldError_errors, Ht. simpl. auto.
Qed.

Lemma X30_witness_email :
  errors (siblings (fst (validateField bad_email_focus)))
  = [error_html msg_email].
Proof.
  refine (proj1 (proj2 (validateField_first_failing_check bad_email_focus _))).
  vm_compute. lia.
Defined.

(** C5.  Where a control shares its parent with the wrappers of
    other controls, a field shows two annotations.  Starting from a
    form without any
    annotation, validating the three controls of [nested_form] once
    each and then the first again leaves the first control with two
    annotations: the second pass removes those of the two other
    controls and adds one more. *)
Lemma validateField_two_annotations :
  errors nested_form = []
  /\ exists ctx x,
      zoom 0
        (fst (validateFieldAt 2
           (fst (validateFieldAt 1 (fst (validateFieldAt 0 nested_form))))))
      = Some (ctx, x)
      /\ snd (validateField x) = false
      /\ child_errors (siblings (fst (validateField x)))
         = [error_html msg_required; error_html msg_required]
      /\ length (errors (siblings (fst (validateField x)))) = 2%nat.
Proof.
  split; [reflexivity |].
  eexists _, _. split; [vm_compute; reflexivity |].
  vm_compute. auto.
Qed.

(** ** Malformed minimum length *)




Section Commute.

Variable g : Field -> Field.
Hypothesis g_borderColor :
  forall c f, g (set_borderColor c f) = set_borderColor c (g f).



End Commute.






Lemma nearest_double_nonneg n m :
  (0 <= n)%Z -> nearest_double n = Some m -> (0 <= m)%Z.
Proof.
  intros Hn. unfold nearest_double.
  destruct (Z.log2 n + 1 <=? 53)%Z; [intros [= <-]; exact Hn |].
  cbv zeta.
  match goal with
  | |- (if (?m' <? _)%Z then _ else _) = _ -> _ => set (r := m')
  end.
  destruct (r <? 2 ^ 1024)%Z; [| discriminate].
  intros [= <-]. unfold r. apply Z.shiftl_nonneg.
  pose proof (Z.shiftr_nonneg n (Z.log2 n + 1 - 53)) as [_ Hq].
  specialize (Hq Hn).
  match goal with |- (0 <= if ?b then _ else _)%Z => destruct b end; lia.
Qed.


(** Below 2^53 the double of an integer is the integer, and from
    2^53 on it is not below 2^53. *)
Lemma nearest_double_safe n :
  (0 <= n < 2 ^ 53)%Z -> nearest_double n = Some n.
Proof.
  intros [H0 Hn]. unfold nearest_double.
  assert (Hb : (Z.log2 n + 1 <=? 53)%Z = true).
  { apply Z.leb_le.
    destruct (Z.eq_dec n 0%Z) as [-> | Hne]; [simpl; lia |].
    assert (Z.log2 n < 53)%Z by (apply Z.log2_lt_pow2; lia). lia. }
  rewrite Hb. reflexivity.
Qed.

Lemma nearest_double_large n m :
  (2 ^ 53 <= n)%Z -> nearest_double n = Some m -> (2 ^ 53 <= m)%Z.
Proof.
  intros Hn. unfold nearest_double.
  assert (Hl : (53 <= Z.log2 n)%Z) by (apply Z.log2_le_pow2; lia).
  assert (Hb : (Z.log2 n + 1 <=? 53)%Z = false) by (apply Z.leb_gt; lia).
  rewrite Hb. cbv zeta.
  set (sh := (Z.log2 n + 1 - 53)%Z).
  assert (Hsh : (1 <= sh)%Z) by (unfold sh; lia).
  assert (Hq : (2 ^ 52 <= Z.shiftr n sh)%Z).
  { rewrite Z.shiftr_div_pow2 by lia.
    apply Z.div_le_lower_bound; [apply Z.pow_pos_nonneg; lia |].
    rewrite <- Z.pow_add_r by lia.
    replace (sh + 52)%Z with (Z.log2 n) by (unfold sh; lia).
    apply Z.log2_spec. lia. }
  match goal with
  | |- (if (Z.shiftl ?q' sh <? _)%Z then _ else _) = _ -> _ =>
      set (q := q'); assert (Hq' : (2 ^ 52 <= q)%Z)
  end.
  { unfold q.
    match goal with |- (_ <= if ?b then _ else _)%Z => destruct b end; lia. }
  destruct (Z.shiftl q sh <? 2 ^ 1024)%Z; [| discriminate].
  intros [= <-]. rewrite Z.shiftl_mul_pow2 by lia.
  assert (H2 : (2 ^ 1 <= 2 ^ sh)%Z) by (apply Z.pow_le_mono_r; lia).
  change (2 ^ 53)%Z with (2 ^ 52 * 2 ^ 1)%Z.
  apply Z.mul_le_mono_nonneg; lia.
Qed.

(** The length of a string is below 2^53: the comparison with the
    Number of an integer is the comparison with the integer. *)
Lemma length_lt_toNumber s n :
  (Z.of_nat (length s) < 2 ^ 53)%Z ->
  length_lt s (toNumber n) = (Z.of_nat (length s) <? n)%Z.
Proof.
  intros Hs. unfold toNumber.
  destruct (n <? 0)%Z eqn:Hneg.
  - destruct (nearest_double (- n)) as [m |] eqn:Hm; simpl.
    + apply nearest_double_nonneg in Hm; [| lia].
      transitivity false; [apply Z.ltb_ge | symmetry; apply Z.ltb_ge]; lia.
    + symmetry. apply Z.ltb_ge. lia.
  - destruct (Z_lt_le_dec n (2 ^ 53)) as [Hlt | Hge].
    + rewrite nearest_double_safe by lia. reflexivity.
    + destruct (nearest_double n) as [m |] eqn:Hm; simpl.
      * apply nearest_double_large in Hm; [| exact Hge].
        transitivity true; [apply Z.ltb_lt | symmetry; apply Z.ltb_lt]; lia.
      * symmetry. apply Z.ltb_lt. lia.
Qed.

Lemma shortest_safe x : (0 < x < 2 ^ 53)%Z -> shortest x = x.
Proof.
  intros Hx. unfold shortest. cbv zeta.
  match goal with
  | |- default x (head ?l) = x =>
      assert (H : Forall (fun v => v = x) l);
        [| destruct H as [| v l' -> _]; reflexivity]
  end.
  apply Forall_forall. intros v Hv.
  apply list_elem_of_omap in Hv as (k & _ & Hk).
  set (p := (10 ^ Z.of_nat (length (decimal x) - k))%Z) in *.
  assert (Hp : (0 < p)%Z) by (apply Z.pow_pos_nonneg; lia).
  assert (Hlo : (0 <= x / p * p)%Z).
  { apply Z.mul_nonneg_nonneg; [apply Z.div_pos |]; lia. }
  assert (Hr : forall c, (0 <= c)%Z ->
              match nearest_double c with
              | Some m => (m =? x)%Z
              | None => false
              end = true -> c = x).
  { intros c Hc Hm.
    destruct (nearest_double c) as [m |] eqn:Hn; [| discriminate].
    apply Z.eqb_eq in Hm. subst m.
    destruct (Z_lt_le_dec c (2 ^ 53)) as [Hlt | Hge].
    - rewrite nearest_double_safe in Hn by lia. congruence.
    - apply nearest_double_large in Hn; [lia | exact Hge]. }
  pose proof (Hr (x / p * p)%Z Hlo) as H1.
  pose proof (Hr (x / p * p + p)%Z ltac:(lia)) as H2.
  destruct (match nearest_double (x / p * p) with
            | Some m => (m =? x)%Z
            | None => false
            end);
    destruct (match nearest_double (x / p * p + p) with
              | Some m => (m =? x)%Z
              | None => false
              end);
    try discriminate;
    repeat match type of Hk with
           | (if ?b then _ else _) = _ => destruct b
           end;
    injection Hk as <-; auto.
Qed.

(** A template literal prints an integer below 2^53 in magnitude with
    all its digits. *)
Lemma NumberToString_safe n :
  (0 <= n < 2 ^ 53)%Z ->
  NumberToString n = decimal n
  /\ ((0 < n)%Z -> NumberToString (- n) = 45 :: decimal n).
Proof.
  intros Hn.
  assert (Hpos : (0 < n)%Z -> positive_to_string n = decimal n).
  { intros H0. unfold positive_to_string. rewrite shortest_safe by lia.
    assert (Hlt : (n <? 10 ^ 21)%Z = true) by (apply Z.ltb_lt; lia).
    rewrite Hlt. reflexivity. }
  split.
  - unfold NumberToString, toNumber.
    assert (H0 : (n <? 0)%Z = false) by (apply Z.ltb_ge; lia).
    rewrite H0, nearest_double_safe by exact Hn. unfold ToString. rewrite H0.
    destruct (n =? 0)%Z eqn:Hz; [apply Z.eqb_eq in Hz; subst; reflexivity |].
    apply Hpos. apply Z.eqb_neq in Hz. lia.
  - intros H0. unfold NumberToString, toNumber.
    assert (H1 : (- n <? 0)%Z = true) by (apply Z.ltb_lt; lia).
    rewrite H1, Z.opp_involutive, nearest_double_safe by exact Hn.
    unfold ToString. rewrite H1.
    assert (H2 : (- n =? 0)%Z = false) by (apply Z.eqb_neq; lia).
    rewrite H2, Z.opp_involutive, Hpos by exact H0. reflexivity.
Qed.









(** On a control without parent element it throws, when it looks for
    the annotation to remove. *)
Lemma Call_validateField_detached f :
  Call.validateField (Detached f)
  = (Detached (set_borderColor [] f), Throw TypeError).
Proof. reflexivity. Qed.




(** ** Locating a control in the tree *)

Lemma zoom_in_Elem k cs : zoom_in k (Elem cs) = zoom_from k [] cs.
Proof. reflexivity. Qed.

Lemma plug_app c1 c2 ys : plug (c1 ++ c2) ys = plug c2 (plug c1 ys).
Proof.
  revert ys. induction c1 as [| [l r] c1 IH]; intros ys; simpl; [reflexivity |].
  apply IH.
Qed.

Lemma ctx_pre_app c1 c2 : ctx_pre (c1 ++ c2) = ctx_pre c2 ++ ctx_pre c1.
Proof.
  induction c1 as [| [l r] c1 IH]; simpl.
  - rewrite app_nil_r. reflexivity.
  - rewrite IH, app_assoc. reflexivity.
Qed.

Lemma fields_plug ctx : forall ys,
  fields (plug ctx ys) = ctx_pre ctx ++ fields ys ++ ctx_post ctx.
Proof.
  induction ctx as [| [l r] ctx IH]; intros ys; simpl.
  - rewrite app_nil_r. reflexivity.
  - rewrite IH, fields_app, fields_cons. simpl.
    fold (fields ys). rewrite <- !app_assoc. reflexivity.
Qed.

Lemma fields_Elem cs : fields [Elem cs] = fields cs.
Proof. unfold fields. simpl. apply app_nil_r. Qed.

Lemma zoom_from_spec cs : forall k l, zoom_spec k l cs.
Proof.
  assert (H : forall n,
             match n with
             | Elem cs => forall k l, zoom_spec k l cs
             | _ => True
             end).
  { induction n as [f | h | cs0 IH] using node_ind; try exact I.
    induction IH as [| c r Hc _ IHr]; intros k l; unfold zoom_spec.
    - simpl. lia.
    - destruct c as [f | h | cs2]; cbn [zoom_from].
      + destruct k as [| k'].
        * simpl. rewrite Nat.add_0_r. auto.
        * specialize (IHr k' (l ++ [Input f])). unfold zoom_spec in IHr.
          destruct (zoom_from k' (l ++ [Input f]) r) as [[ctx x] |].
          -- destruct IHr as [Hp Hl]. rewrite Hp, Hl, <- app_assoc.
             rewrite fields_app, length_app. simpl. split; [reflexivity | lia].
          -- rewrite fields_cons, length_app. simpl. lia.
      + specialize (IHr k (l ++ [FieldError h])). unfold zoom_spec in IHr.
        destruct (zoom_from k (l ++ [FieldError h]) r) as [[ctx x] |].
        * destruct IHr as [Hp Hl]. rewrite Hp, Hl, <- app_assoc.
          rewrite fields_app, length_app. simpl. split; [reflexivity | lia].
        * rewrite fields_cons. simpl. exact IHr.
      + rewrite zoom_in_Elem.
        specialize (Hc k []). unfold zoom_spec in Hc.
        destruct (zoom_from k [] cs2) as [[ctx x] |].
        * destruct Hc as [Hp Hl]. simpl in Hp, Hl.
          rewrite plug_app, Hp, ctx_pre_app. simpl.
          rewrite <- app_assoc, length_app, Hl. auto.
        * change (fields_of (Elem cs2)) with (fields cs2).
          specialize (IHr (k - length (fields cs2))%nat (l ++ [Elem cs2])).
          unfold zoom_spec in IHr.
          destruct (zoom_from _ (l ++ [Elem cs2]) r) as [[ctx x] |].
          -- destruct IHr as [Hp Hl]. rewrite Hp, Hl, <- app_assoc.
             rewrite fields_app, length_app. simpl.
             rewrite fields_Elem. split; [reflexivity | lia].
          -- rewrite fields_cons, length_app. simpl. fold (fields cs2). lia. }
  exact (H (Elem cs)).
Qed.

Lemma zoom_Some k cs ctx x :
  zoom k cs = Some (ctx, x) ->
  plug ctx (siblings x) = cs
  /\ length (ctx_pre ctx ++ fields (before x)) = k
  /\ fields cs
     = (ctx_pre ctx ++ fields (before x))
       ++ target x :: (fields (after x) ++ ctx_post ctx).
Proof.
  unfold zoom. rewrite zoom_in_Elem. intros Hz.
  pose proof (zoom_from_spec cs k []) as Hs. unfold zoom_spec in Hs.
  rewrite Hz in Hs. destruct Hs as [Hp Hl]. simpl in Hp, Hl.
  split; [exact Hp |]. split; [exact Hl |].
  rewrite <- Hp at 1. rewrite fields_plug, fields_siblings.
  rewrite <- !app_assoc. reflexivity.
Qed.

Lemma zoom_None k cs : zoom k cs = None -> (length (fields cs) <= k)%nat.
Proof.
  unfold zoom. rewrite zoom_in_Elem. intros Hz.
  pose proof (zoom_from_spec cs k []) as Hs. unfold zoom_spec in Hs.
  rewrite Hz in Hs. exact Hs.
Qed.

Lemma zoom_lookup k cs ctx x :
  zoom k cs = Some (ctx, x) -> fields cs !! k = Some (target x).
Proof.
  intros Hz. apply zoom_Some in Hz as (_ & Hl & ->).
  rewrite lookup_app_r by lia. rewrite Hl, Nat.sub_diag. reflexivity.
Qed.

(** ** Validation of a whole form *)

Lemma at_field_fields {A : Type} k (g : focus -> focus * A) d cs :
  (forall x,
      fields (before (fst (g x))) = fields (before x)
      /\ fields (after (fst (g x))) = fields (after x)
      /\ unstyled (target (fst (g x))) = unstyled (target x)) ->
  unstyled <$> fields (fst (at_field k g d cs)) = unstyled <$> fields cs.
Proof.
  intros Hg. unfold at_field.
  destruct (zoom k cs) as [[ctx x] |] eqn:Hz; [| reflexivity].
  specialize (Hg x). destruct (g x) as [x' a]. cbn [fst] in *.
  destruct Hg as (Hb & Ha & Ht).
  apply zoom_Some in Hz as (_ & _ & ->).
  rewrite fields_plug, fields_siblings, Hb, Ha.
  rewrite !fmap_app, !fmap_cons, !fmap_app, Ht, <- !app_assoc. reflexivity.
Qed.

Lemma validateFieldAt_fields k cs :
  unstyled <$> fields (fst (validateFieldAt k cs)) = unstyled <$> fields cs.
Proof. apply at_field_fields. intros x. apply validateField_fields. Qed.

Lemma validateFieldAt_snd k cs :
  snd (validateFieldAt k cs) = from_option valid true (fields cs !! k).
Proof.
  unfold validateFieldAt, at_field.
  destruct (zoom k cs) as [[ctx x] |] eqn:Hz.
  - rewrite (zoom_lookup _ _ _ _ Hz). simpl.
    rewrite <- validateField_snd. destruct (validateField x). reflexivity.
  - apply zoom_None in Hz. rewrite lookup_ge_None_2 by exact Hz. reflexivity.
Qed.

Lemma valid_unstyled f : valid (unstyled f) = valid f.
Proof. rewrite !valid_first_failing. reflexivity. Qed.

Lemma lookup_valid_unstyled (fs gs : list Field) k :
  unstyled <$> fs = unstyled <$> gs ->
  from_option valid true (fs !! k) = from_option valid true (gs !! k).
Proof.
  intros Heq.
  assert (Hk : unstyled <$> (fs !! k) = unstyled <$> (gs !! k)).
  { rewrite <- !list_lookup_fmap, Heq. reflexivity. }
  destruct (fs !! k) as [f |], (gs !! k) as [g |]; try discriminate;
    [| reflexivity].
  apply (inj Some) in Hk. cbn [from_option].
  rewrite <- (valid_unstyled f), <- (valid_unstyled g), Hk. reflexivity.
Qed.

Lemma forallb_pointwise {A : Type} (p q : A -> bool) l :
  (forall a, p a = q a) -> forallb p l = forallb q l.
Proof.
  intros Hpq. induction l as [| a l IH]; simpl; [reflexivity |].
  rewrite Hpq, IH. reflexivity.
Qed.

Lemma forallb_map_compose {A B : Type} (g : A -> B) (p : B -> bool) l :
  forallb p (List.map g l) = forallb (fun a => p (g a)) l.
Proof.
  induction l as [| a l IH]; simpl; [reflexivity |]. rewrite IH. reflexivity.
Qed.

Lemma forEach_validate_spec inputs : forall cs isValid,
  snd (forEach_validate inputs cs isValid)
  = isValid && forallb (fun k => from_option valid true (fields cs !! k)) inputs
  /\ unstyled <$> fields (fst (forEach_validate inputs cs isValid))
     = unstyled <$> fields cs.
Proof.
  induction inputs as [| k inputs IH]; intros cs isValid; simpl.
  - rewrite andb_true_r. auto.
  - pose proof (validateFieldAt_snd k cs) as Hs.
    pose proof (validateFieldAt_fields k cs) as Hf.
    destruct (validateFieldAt k cs) as [cs' ok]. cbn [fst snd] in *.
    destruct (IH cs' (if negb ok then false else isValid)) as [IH1 IH2].
    rewrite IH1, IH2, Hf. split; [| reflexivity].
    rewrite <- Hs.
    rewrite (forallb_pointwise _
               (fun k => from_option valid true (fields cs !! k)))
      by (intros k'; apply lookup_valid_unstyled; exact Hf).
    destruct ok, isValid; reflexivity.
Qed.

Lemma forallb_lookup_seq {A : Type} (p : A -> bool) (l : list A) :
  forallb (fun k => from_option p true (l !! k)) (seq 0 (length l))
  = forallb p l.
Proof.
  induction l as [| a l IH]; [reflexivity |].
  cbn [length seq forallb]. rewrite <- seq_shift, forallb_map_compose.
  simpl. rewrite <- IH. reflexivity.
Qed.

(** The aggregate computed by the submit listener is the conjunction of
    what [validateField] returns for each control. *)
Lemma validateAll_snd cs : snd (validateAll cs) = forallb valid (fields cs).
Proof.
  unfold validateAll.
  destruct (forEach_validate_spec (seq 0 (length (fields cs))) cs true)
    as [-> _].
  apply forallb_lookup_seq.
Qed.

Lemma validateAll_fields cs :
  unstyled <$> fields (fst (validateAll cs)) = unstyled <$> fields cs.
Proof.
  unfold validateAll.
  apply (forEach_validate_spec (seq 0 (length (fields cs))) cs true).
Qed.

Lemma omap_unstyled {B : Type} (g : Field -> option B) (fs gs : list Field) :
  (forall f, g (unstyled f) = g f) ->
  unstyled <$> fs = unstyled <$> gs -> omap g fs = omap g gs.
Proof.
  intros Hg. revert gs.
  induction fs as [| f fs IH]; intros [| g0 gs] Heq; try discriminate;
    [reflexivity |].
  rewrite !fmap_cons in Heq. apply (inj2 cons) in Heq as [Hh Ht].
  cbn [omap list_omap]. rewrite <- (Hg f), <- (Hg g0), Hh, (IH gs Ht).
  reflexivity.
Qed.

(** Validation changes neither the names nor the values of the
    controls: the data collected after it is the data of the form as
    submitted. *)
Lemma FormData_validateAll cs : FormData (fst (validateAll cs)) = FormData cs.
Proof.
  unfold FormData. apply omap_unstyled; [reflexivity |].
  apply validateAll_fields.
Qed.


(** ** The call of [showNotification] *)

Lemma showNotification_run v m t s :
  showNotification v m t s
  = if closable v m then
      (setTimeout (AutoDismiss (fresh s)) (dismiss_delay v)
         (insert m t (evict s)), Normal tt)
    else (insert m t (evict s), Throw TypeError).
Proof.
  unfold showNotification, bind, modify, gets, ret, throw, closable.
  destruct v as [p |]; [destruct (has_close_button p m) |]; reflexivity.
Qed.

Lemma snd_showNotification v m t s :
  snd (showNotification v m t s)
  = if closable v m then Normal tt else Throw TypeError.
Proof. rewrite showNotification_run. destruct (closable v m); reflexivity. Qed.

Lemma toasts_showNotification v m t s :
  toasts (fst (showNotification v m t s))
  = tail (toasts s)
    ++ [{| toast_id := fresh s; message := m; level := t;
           animation := slideInRight |}].
Proof.
  rewrite showNotification_run.
  destruct (closable v m); cbn [fst]; frames; destruct (toasts s); reflexivity.
Qed.

Lemma timers_showNotification v m t s :
  timers (fst (showNotification v m t s))
  = timers s
    ++ if closable v m then [(dismiss_delay v, AutoDismiss (fresh s))] else [].
Proof.
  rewrite showNotification_run.
  destruct (closable v m); cbn [fst]; frames;
    [reflexivity | rewrite app_nil_r; reflexivity].
Qed.

Lemma fresh_showNotification v m t s :
  fresh (fst (showNotification v m t s)) = S (fresh s).
Proof. rewrite showNotification_run. destruct (closable v m); reflexivity. Qed.

Lemma trace_showNotification v m t s :
  trace (fst (showNotification v m t s)) = trace s ++ [Shown (fresh s) m t].
Proof. rewrite showNotification_run. destruct (closable v m); reflexivity. Qed.

Lemma form_showNotification v m t s :
  form (fst (showNotification v m t s)) = form s.
Proof. rewrite showNotification_run. destruct (closable v m); reflexivity. Qed.

Lemma submitBtn_showNotification v m t s :
  submitBtn (fst (showNotification v m t s)) = submitBtn s.
Proof. rewrite showNotification_run. destruct (closable v m); reflexivity. Qed.

(** A message without [<] keeps the close button, in every browser. *)
Lemma closable_plain v m :
  forallb (fun c => negb (c =? 60)) m = true -> closable v m = true.
Proof.
  intros Hm. destruct v as [p |]; [| reflexivity].
  apply plain_has_close_button, Hm.
Qed.

Lemma closable_msg_fix_errors v : closable v msg_fix_errors = true.
Proof. apply closable_plain. reflexivity. Qed.

Lemma closable_msg_failed v : closable v msg_failed = true.
Proof. apply closable_plain. reflexivity. Qed.

Lemma closable_msg_sent v : closable v msg_sent = true.
Proof. apply closable_plain. reflexivity. Qed.

Lemma run_showNotification v m t s :
  run (showNotification v m t) s
  = if closable v m then fst (showNotification v m t s)
    else record (Uncaught TypeError) (fst (showNotification v m t s)).
Proof.
  unfold run. rewrite showNotification_run.
  destruct (closable v m); reflexivity.
Qed.

(** ** The submit listener, step by step *)

Section ListenerFacts.

Variable v : variant.
Variable h : Handler.

Lemma onSubmit_run s :
  run (onSubmit v) s =
  if forallb valid (fields (form s)) then
    match submitBtn s with
    | Some b => submitting b s
    | None => record (Uncaught TypeError) (validated s)
    end
  else fst (showNotification v msg_fix_errors error (validated s)).
Proof.
  rewrite <- validateAll_snd. unfold submitting, validated.
  rewrite <- (FormData_validateAll (form s)).
  unfold run, onSubmit, bind, modify, gets, throw.
  destruct (validateAll (form s)) as [cs ok]. cbn [fst snd].
  destruct ok; cbn [negb].
  - frames. destruct (submitBtn s) as [b |]; reflexivity.
  - rewrite showNotification_run, closable_msg_fix_errors. reflexivity.
Qed.

(** The try block after a resolved promise: where it ends, and
    how. *)
Lemma afterAwait_run data s :
  afterAwait v h data Resolved s
  = let s1 := announced v h data s in
    if negb (closable v (or_default (successMessage h) msg_sent)) then
      (s1, Throw TypeError)
    else if shadowed "reset" (form s) then (s1, Throw TypeError)
    else
      match onSuccess h with
      | Some f =>
          (record (Called data) (upd_form reset s1),
           match f data with Some e => Throw e | None => Normal tt end)
      | None => (upd_form reset s1, Normal tt)
      end.
Proof.
  unfold afterAwait, announced, bind, modify, gets, ret, throw.
  rewrite showNotification_run.
  destruct (closable v (or_default (successMessage h) msg_sent));
    cbn [negb fst]; [| reflexivity].
  frames. destruct (shadowed "reset" (form s)); [reflexivity |].
  destruct (onSuccess h) as [f |]; [| reflexivity].
  destruct (f data); reflexivity.
Qed.


Lemma resume_run data originalBtnText r s :
  run (resume v h data originalBtnText r) s =
  restored originalBtnText
    match r with
    | Resolved =>
        match afterAwait v h data Resolved s with
        | (s1, Normal _) => s1
        | (s1, Throw e) => caught v e s1
        end
    | Rejected e => caught v e s
    end.
Proof.
  unfold run, resume, tryCatchFinally, restored, caught.
  destruct r as [| e].
  - destruct (afterAwait v h data Resolved s) as [s1 [[] | e]].
    + reflexivity.
    + unfold bind at 1, modify at 1.
      rewrite showNotification_run, closable_msg_failed. reflexivity.
  - unfold afterAwait, bind at 1, throw.
    unfold bind at 1, modify at 1.
    rewrite showNotification_run, closable_msg_failed. reflexivity.
Qed.

(** The listener never lets an exception escape once it has
    suspended. *)
Lemma resume_completes data originalBtnText r s :
  snd (resume v h data originalBtnText r s) = Normal tt.
Proof.
  unfold resume, tryCatchFinally.
  assert (Hc : forall e s',
             snd ((bind (modify (record (ConsoleError e)))
                     (fun _ => showNotification v msg_failed error)) s')
             = Normal tt).
  { intros e s'. unfold bind, modify.
    rewrite snd_showNotification, closable_msg_failed. reflexivity. }
  destruct r as [| e].
  - destruct (afterAwait v h data Resolved s) as [s1 [[] | e]].
    + reflexivity.
    + specialize (Hc e s1).
      destruct (bind (modify (record (ConsoleError e)))
                  (fun _ => showNotification v msg_failed error) s1)
        as [s2 r2].
      cbn [snd] in Hc. subst r2. reflexivity.
  - unfold afterAwait, bind at 1, throw.
    specialize (Hc e s).
    destruct (bind (modify (record (ConsoleError e)))
                (fun _ => showNotification v msg_failed error) s)
      as [s2 r2].
    cbn [snd] in Hc. subst r2. reflexivity.
Qed.

End ListenerFacts.

(** ** Notifications: at most one, and timers that know their own *)

Lemma Inv_frame s s' :
  toasts s' = toasts s -> fresh s' = fresh s -> timers s' = timers s ->
  Inv s -> Inv s'.
Proof.
  intros Ht Hf Hm [H1 H2 H3].
  constructor; rewrite ?Ht, ?Hf, ?Hm; assumption.
Qed.

Lemma Inv_loaded s : loaded s -> Inv s.
Proof.
  intros (Ht & Hm & _). constructor; rewrite ?Ht, ?Hm; simpl; auto.
Qed.

Lemma Forall_tail_of {A : Type} (P : A -> Prop) l :
  Forall P l -> Forall P (tail l).
Proof. intros H. destruct H; simpl; auto. Qed.

Lemma Forall_filter_of {A : Type} (P : A -> Prop) (p : A -> bool) l :
  Forall P l -> Forall P (List.filter p l).
Proof.
  induction 1 as [| a l Ha _ IH]; simpl; [constructor |].
  destruct (p a); [constructor |]; assumption.
Qed.

Lemma Inv_showNotification v m t s :
  Inv s -> Inv (fst (showNotification v m t s)).
Proof.
  intros [H1 H2 H3]. constructor.
  - rewrite toasts_showNotification, length_app. simpl.
    destruct (toasts s) as [| a [| b l]]; simpl in *; lia.
  - rewrite toasts_showNotification, fresh_showNotification.
    apply Forall_app. split.
    + apply Forall_tail_of. eapply Forall_impl; [exact H2 |]. simpl. lia.
    + constructor; [simpl; lia | constructor].
  - rewrite timers_showNotification, fresh_showNotification.
    apply Forall_app. split.
    + eapply Forall_impl; [exact H3 |]. intros tc Htc id Hid.
      specialize (Htc id Hid). lia.
    + destruct (closable v m); [| constructor].
      constructor; [| constructor]. simpl. intros id [= <-]. lia.
Qed.

Lemma Inv_setTimeout c d s :
  (forall id, timer_target c = Some id -> (id < fresh s)%nat) ->
  Inv s -> Inv (setTimeout c d s).
Proof.
  intros Hc [H1 H2 H3]. constructor; frames; auto.
  apply Forall_app. split; [exact H3 |]. constructor; [exact Hc | constructor].
Qed.

Lemma Inv_animate id a s : Inv s -> Inv (animate id a s).
Proof.
  intros [H1 H2 H3]. constructor; frames; auto.
  - rewrite length_map. exact H1.
  - apply Forall_map. eapply Forall_impl; [exact H2 |].
    intros t Ht. simpl. destruct (Nat.eqb (toast_id t) id); exact Ht.
Qed.

Lemma Inv_detach id s : Inv s -> Inv (detach id s).
Proof.
  intros [H1 H2 H3]. constructor; frames; auto.
  - pose proof (List.filter_length_le
                  (fun t => negb (Nat.eqb (toast_id t) id)) (toasts s)).
    lia.
  - apply Forall_filter_of. exact H2.
Qed.

Lemma attached_lt id s : Inv s -> attached id s = true -> (id < fresh s)%nat.
Proof.
  intros [_ H2 _] Ha. unfold attached in Ha.
  apply existsb_exists in Ha as (t & Hin & Heq).
  apply Nat.eqb_eq in Heq. subst id.
  rewrite Forall_forall in H2. apply H2. apply list_elem_of_In. exact Hin.
Qed.

Lemma Inv_autoDismiss v id s :
  (id < fresh s)%nat -> Inv s -> Inv (autoDismiss v id s).
Proof.
  intros Hid HI. unfold autoDismiss.
  assert (HD : Inv (setTimeout (Detach id) 300 (animate id slideOutRight s))).
  { apply Inv_setTimeout; [| apply Inv_animate; exact HI].
    intros id' [= <-]. exact Hid. }
  destruct v; [destruct (attached id s) |]; auto.
Qed.

Lemma remove_nth_Forall {A : Type} (P : A -> Prop) i l :
  Forall P l -> Forall P (remove_nth i l).
Proof.
  intros H. unfold remove_nth. apply Forall_app. split.
  - apply Forall_take. exact H.
  - apply Forall_drop. exact H.
Qed.

Section Steps.

Variable v : variant.
Variable h : Handler.

Lemma Inv_restored txt s : Inv s -> Inv (restored txt s).
Proof. apply Inv_frame; reflexivity. Qed.

Lemma Inv_record e s : Inv s -> Inv (record e s).
Proof. apply Inv_frame; reflexivity. Qed.

Lemma Inv_upd_form g s : Inv s -> Inv (upd_form g s).
Proof. apply Inv_frame; reflexivity. Qed.

Lemma Inv_upd_button g s : Inv s -> Inv (upd_button g s).
Proof. apply Inv_frame; reflexivity. Qed.

Lemma Inv_caught e s : Inv s -> Inv (caught v e s).
Proof. intros HI. apply Inv_showNotification, Inv_record, HI. Qed.

Lemma Inv_announced data s : Inv s -> Inv (announced v h data s).
Proof. intros HI. apply Inv_showNotification, Inv_record, HI. Qed.

Lemma Inv_afterAwait data s :
  Inv s -> Inv (fst (afterAwait v h data Resolved s)).
Proof.
  intros HI. rewrite afterAwait_run. cbv zeta.
  pose proof (Inv_announced data s HI) as HA.
  destruct (negb (closable v (or_default (successMessage h) msg_sent)));
    [exact HA |].
  destruct (shadowed "reset" (form s)); [exact HA |].
  destruct (onSuccess h) as [f |]; cbn [fst].
  - apply Inv_record, Inv_upd_form, HA.
  - apply Inv_upd_form, HA.
Qed.

Lemma Inv_resume data txt r s :
  Inv s -> Inv (run (resume v h data txt r) s).
Proof.
  intros HI. rewrite resume_run. apply Inv_restored.
  destruct r as [| e]; [| apply Inv_caught, HI].
  pose proof (Inv_afterAwait data s HI) as HA.
  destruct (afterAwait v h data Resolved s) as [s1 [[] | e]]; cbn [fst] in HA.
  - exact HA.
  - apply Inv_caught, HA.
Qed.

Lemma Inv_onSubmit s : Inv s -> Inv (run (onSubmit v) s).
Proof.
  intros HI. rewrite onSubmit_run.
  assert (HV : Inv (validated s)) by (apply Inv_upd_form, HI).
  destruct (forallb valid (fields (form s)));
    [| apply Inv_showNotification, HV].
  destruct (submitBtn s) as [b |]; [| apply Inv_record, HV].
  unfold submitting. apply Inv_setTimeout; [discriminate |].
  apply Inv_record, Inv_upd_button, Inv_upd_button, HV.
Qed.

Lemma Inv_fire c s :
  (forall id, timer_target c = Some id -> (id < fresh s)%nat) ->
  Inv s -> Inv (fire v h c s).
Proof.
  intros Hc HI. destruct c as [id | id | data txt]; simpl.
  - apply Inv_autoDismiss; [apply Hc; reflexivity | exact HI].
  - apply Inv_detach, HI.
  - apply Inv_resume, HI.
Qed.

Lemma Inv_step e s : Inv s -> Inv (step v h e s).
Proof.
  intros HI. destruct e as [| i | id | k | k | k text | m t]; cbn [step].
  - apply Inv_onSubmit, HI.
  - destruct (timers s !! i) as [[d c] |] eqn:Hi; [| exact HI].
    apply Inv_fire.
    + intros id Hid. frames. destruct HI as [_ _ H3].
      rewrite Forall_forall in H3.
      apply (H3 (d, c)); [| exact Hid].
      apply list_elem_of_lookup. eauto.
    + destruct HI as [H1 H2 H3]. constructor; frames; auto.
      apply remove_nth_Forall. exact H3.
  - destruct v; [| exact HI].
    destruct (attached id s) eqn:Ha; [| exact HI].
    unfold closeClick. apply Inv_setTimeout; [| apply Inv_animate, HI].
    intros id' [= <-]. simpl. apply attached_lt; assumption.
  - apply Inv_upd_form, HI.
  - apply Inv_upd_form, HI.
  - apply Inv_upd_form, HI.
  - rewrite run_showNotification.
    destruct (closable v m);
      [| apply Inv_record]; apply Inv_showNotification, HI.
Qed.

Lemma reachable_Inv s : reachable v h s -> Inv s.
Proof.
  induction 1 as [s Hl | e s _ IH].
  - apply Inv_loaded, Hl.
  - apply Inv_step, IH.
Qed.

End Steps.

Lemma toasts_show_single v m t s :
  Inv s ->
  toasts (fst (showNotification v m t s))
  = [{| toast_id := fresh s; message := m; level := t;
        animation := slideInRight |}].
Proof.
  intros [H1 _ _]. rewrite toasts_showNotification.
  destruct (toasts s) as [| a [| b l]]; simpl in *; try lia; reflexivity.
Qed.

(** C8. In every state the page can reach there is at most one
    notification.  A call of [showNotification] first removes the one
    that is there and then inserts the new one, so that after one call
    exactly the new notification is shown, and after two calls in a row
    exactly the second; this holds of the page the call leaves also
    when the call ends on an exception. *)
Theorem one_notification_at_a_time (v : variant) (h : Handler) (s : Page)
    (Hr : reachable v h s) (m1 m2 : jsstring) (t1 t2 : severity) :
  (length (toasts s) <= 1)%nat
  /\ toasts (evict s) = []
  /\ toasts (fst (showNotification v m1 t1 s))
     = [{| toast_id := fresh s; message := m1; level := t1;
           animation := slideInRight |}]
  /\ toasts (evict (fst (showNotification v m1 t1 s))) = []
  /\ toasts (fst (showNotification v m2 t2 (fst (showNotification v m1 t1 s))))
     = [{| toast_id := S (fresh s); message := m2; level := t2;
           animation := slideInRight |}].
Proof.
  pose proof (reachable_Inv v h s Hr) as HI.
  pose proof (Inv_showNotification v m1 t1 s HI) as HI1.
  rewrite (toasts_show_single v m2 t2 _ HI1), fresh_showNotification.
  pose proof (toasts_show_single v m1 t1 s HI) as H1.
  destruct HI as [Hone _ _].
  split; [exact Hone |].
  split; [frames; destruct (toasts s) as [| a [| b l]]; simpl in *;
          try lia; reflexivity |].
  split; [exact H1 |].
  split; [frames; rewrite H1; reflexivity | reflexivity].
Qed.

Lemma C8_witness_two_calls :
  toasts
    (fst (showNotification (FormFeedback text_parser) (js "two") success
            (fst (showNotification (FormFeedback text_parser) (js "one") error
                    (page_of [] None)))))
  = [{| toast_id := 1; message := js "two"; level := success;
        animation := slideInRight |}].
Proof.
  refine (proj2 (proj2 (proj2 (proj2
            (one_notification_at_a_time (FormFeedback text_parser)
               plain_handler
               (page_of [] None) _ (js "one") (js "two") error success))))).
  apply reach_loaded. repeat split.
Defined.

Lemma toasts_singleton_other id n s :
  toasts s = [n] -> toast_id n <> id ->
  attached id s = false
  /\ toasts (detach id s) = [n]
  /\ toasts (animate id slideOutRight s) = [n].
Proof.
  intros Ht Hne. unfold attached. frames. rewrite Ht. simpl.
  destruct (Nat.eqb_spec (toast_id n) id) as [Heq | _]; [contradiction |].
  auto.
Qed.

Lemma fire_spares_others v h c id s n :
  timer_target c = Some id ->
  n ∈ toasts s -> toast_id n <> id -> n ∈ toasts (fire v h c s).
Proof.
  intros Hc Hn Hne.
  assert (Hd : n ∈ toasts (detach id s)).
  { frames. apply list_elem_of_In, List.filter_In.
    split; [apply list_elem_of_In; exact Hn |].
    destruct (Nat.eqb_spec (toast_id n) id); [contradiction | reflexivity]. }
  assert (Ha : n ∈ toasts (animate id slideOutRight s)).
  { frames. apply list_elem_of_In, List.in_map_iff. exists n.
    split; [| apply list_elem_of_In; exact Hn].
    destruct (Nat.eqb_spec (toast_id n) id); [contradiction | reflexivity]. }
  destruct c as [id' | id' | data txt]; try discriminate;
    injection Hc as ->; cbn [fire].
  - unfold autoDismiss. destruct v; [destruct (attached id s) |]; assumption.
  - exact Hd.
Qed.

(** C9, as the code has it.  [showNotification] clears no timer: the
    timers pending before the call are all pending after it, with one
    more when the call returns.  A timer acts on the notification it
    was created for, which is never the one shown later: whenever a
    callback of the evicted notification runs, every other
    notification stays where it is, and running an old timer right
    after the call leaves the new notification in place. *)
Theorem old_timers_spare_new_notification (v : variant) (h : Handler)
    (s : Page) (Hr : reachable v h s) (m : jsstring) (t : severity)
    (i : nat) (d : N) (c : callback) (id : nat)
    (Hi : timers s !! i = Some (d, c)) (Hc : timer_target c = Some id) :
  timers (fst (showNotification v m t s))
  = timers s
    ++ (if closable v m then [(dismiss_delay v, AutoDismiss (fresh s))]
        else [])
  /\ timers (fst (showNotification v m t s)) !! i = Some (d, c)
  /\ toasts (fst (showNotification v m t s))
     = [{| toast_id := fresh s; message := m; level := t;
           animation := slideInRight |}]
  /\ id <> fresh s
  /\ toasts (step v h (Timer i) (fst (showNotification v m t s)))
     = toasts (fst (showNotification v m t s))
  /\ (forall s2 j d2 c2 n,
        timers s2 !! j = Some (d2, c2) -> timer_target c2 = Some id ->
        n ∈ toasts s2 -> toast_id n <> id ->
        n ∈ toasts (step v h (Timer j) s2)).
Proof.
  pose proof (reachable_Inv v h s Hr) as HI.
  assert (Hlt : (id < fresh s)%nat).
  { destruct HI as [_ _ H3]. rewrite Forall_forall in H3.
    apply (H3 (d, c)); [| exact Hc]. apply list_elem_of_lookup. eauto. }
  assert (Hnew : toasts (fst (showNotification v m t s))
                 = [{| toast_id := fresh s; message := m; level := t;
                       animation := slideInRight |}]).
  { apply toasts_show_single, HI. }
  assert (Hold : timers (fst (showNotification v m t s)) !! i = Some (d, c)).
  { rewrite timers_showNotification. apply lookup_app_l_Some. exact Hi. }
  split; [apply timers_showNotification |].
  split; [exact Hold |]. split; [exact Hnew |]. split; [lia |]. split.
  - cbn [step]. rewrite Hold.
    set (s1 := upd_timers (remove_nth i) (fst (showNotification v m t s))).
    assert (H1 : toasts s1 = toasts (fst (showNotification v m t s)))
      by reflexivity.
    rewrite Hnew in H1. rewrite Hnew.
    destruct (toasts_singleton_other id _ s1 H1) as (Ha & Hd & Hn);
      [simpl; lia |].
    destruct c as [id' | id' | data txt]; try discriminate;
      injection Hc as ->; cbn [fire].
    + unfold autoDismiss. destruct v; [rewrite Ha; exact H1 | exact Hn].
    + exact Hd.
  - intros s2 j d2 c2 n Hj Hc2 Hn Hne. cbn [step]. rewrite Hj.
    apply (fire_spares_others v h c2 id); assumption.
Qed.

Lemma C9_witness_old_timer :
  toasts
    (step (FormFeedback text_parser) plain_handler (Timer 0)
       (fst (showNotification (FormFeedback text_parser) (js "two") info
               (step (FormFeedback text_parser) plain_handler
                  (Show (js "one") info) (page_of [] None)))))
  = toasts
      (fst (showNotification (FormFeedback text_parser) (js "two") info
              (step (FormFeedback text_parser) plain_handler
                 (Show (js "one") info) (page_of [] None)))).
Proof.
  refine (proj1 (proj2 (proj2 (proj2 (proj2
            (old_timers_spare_new_notification (FormFeedback text_parser)
               plain_handler
               (step (FormFeedback text_parser) plain_handler
                  (Show (js "one") info) (page_of [] None))
               _ (js "two") info 0%nat 5000 (AutoDismiss 0) 0%nat _ _)))))).
  - apply reach_step, reach_loaded. repeat split.
  - reflexivity.
  - reflexivity.
Defined.

(** C9, as stated, fails: the call that evicts a notification leaves
    the timer of that notification pending.  After two calls in a row,
    in either variant, the timer of the first notification is still
    there beside the timer of the second. *)
Lemma evicted_timer_still_pending :
  timers
    (fst (showNotification (FormFeedback text_parser) (js "two") info
            (fst (showNotification (FormFeedback text_parser) (js "one") info
                    (page_of [] None)))))
  = [(5000, AutoDismiss 0); (5000, AutoDismiss 1)]
  /\ timers
       (fst (showNotification PageFeedback (js "two") info
               (fst (showNotification PageFeedback (js "one") info
                       (page_of [] None)))))
     = [(3000, AutoDismiss 0); (3000, AutoDismiss 1)]
  /\ List.map toast_id
       (toasts
          (fst (showNotification (FormFeedback text_parser) (js "two") info
                  (fst (showNotification (FormFeedback text_parser) (js "one")
                          info (page_of [] None))))))
     = [1%nat].
Proof. repeat split. Qed.

(** ** Submission *)

Lemma transmissions_app tr1 tr2 :
  transmissions (tr1 ++ tr2) = (transmissions tr1 + transmissions tr2)%nat.
Proof. unfold transmissions. rewrite List.filter_app, length_app. reflexivity. Qed.

Lemma notifications_app tr1 tr2 :
  notifications (tr1 ++ tr2) = (notifications tr1 + notifications tr2)%nat.
Proof. unfold notifications. rewrite List.filter_app, length_app. reflexivity. Qed.

(** What [validateField] returns for a field depends on the field
    alone, and the listener computes the conjunction over the fields of
    the form.  When every field's [validateField] returns [true] and
    the form has a submit button, the listener starts the transmission
    exactly once and shows nothing.  When some field's [validateField]
    returns [false], it starts no transmission, shows the one
    notification "Por favor corrige los errores en el formulario" and
    returns. *)
Lemma submit_transmits_when_valid (v : variant) (h : Handler) (s : Page) :
  ((forall x : focus, snd (validateField x) = valid (target x))
   /\ snd (validateAll (form s)) = forallb valid (fields (form s)))
  /\ (forallb valid (fields (form s)) = true ->
   forall b, submitBtn s = Some b ->
     trace (step v h Submit s)
     = trace s ++ [Transmit (fromEntries (FormData (form s)))]
     /\ transmissions (trace (step v h Submit s))
        = S (transmissions (trace s))
     /\ notifications (trace (step v h Submit s)) = notifications (trace s)
     /\ timers (step v h Submit s)
        = timers s
          ++ [(2000, Resolve (fromEntries (FormData (form s))) (innerHTML b))])
  /\ (forallb valid (fields (form s)) = false ->
      trace (step v h Submit s)
      = trace s ++ [Shown (fresh s) msg_fix_errors error]
      /\ transmissions (trace (step v h Submit s)) = transmissions (trace s)
      /\ notifications (trace (step v h Submit s))
         = S (notifications (trace s))
      /\ timers (step v h Submit s)
         = timers s ++ [(dismiss_delay v, AutoDismiss (fresh s))]).
Proof.
  split; [split; [exact validateField_snd | apply validateAll_snd] |].
  cbn [step]. rewrite onSubmit_run. split.
  - intros -> b ->.
    assert (Ht : trace (submitting b s)
                 = trace s ++ [Transmit (fromEntries (FormData (form s)))])
      by reflexivity.
    rewrite Ht, transmissions_app, notifications_app.
    repeat split; try reflexivity; unfold transmissions, notifications; cbn; lia.
  - intros ->.
    rewrite trace_showNotification, timers_showNotification,
      closable_msg_fix_errors, transmissions_app, notifications_app.
    repeat split; try reflexivity; unfold transmissions, notifications; cbn; lia.
Qed.

(** C1.  On a form that has no [button[type="submit"]] and whose
    fields are all valid, the listener stops on a [TypeError] when it
    reads [submitBtn.innerHTML]: no transmission is started and no
    timer is set. *)
Lemma submit_without_button :
  forallb valid (fields contact_form) = true
  /\ trace (step (FormFeedback text_parser) plain_handler Submit
              (page_of contact_form None))
     = [Uncaught TypeError]
  /\ transmissions
       (trace (step (FormFeedback text_parser) plain_handler Submit
                 (page_of contact_form None)))
     = 0%nat
  /\ timers (step (FormFeedback text_parser) plain_handler Submit
               (page_of contact_form None))
     = [].
Proof. vm_compute. auto. Qed.

Lemma submitBtn_afterAwait v h data s :
  submitBtn (fst (afterAwait v h data Resolved s)) = submitBtn s.
Proof.
  rewrite afterAwait_run. cbv zeta.
  assert (HA : submitBtn (announced v h data s) = submitBtn s).
  { unfold announced. rewrite submitBtn_showNotification. reflexivity. }
  destruct (negb (closable v (or_default (successMessage h) msg_sent)));
    [exact HA |].
  destruct (shadowed "reset" (form s)); [exact HA |].
  destruct (onSuccess h) as [f |]; cbn [fst]; frames; exact HA.
Qed.

Lemma submitBtn_caught v e s : submitBtn (caught v e s) = submitBtn s.
Proof. unfold caught. rewrite submitBtn_showNotification. reflexivity. Qed.

Lemma submitBtn_resume v h data txt r s :
  submitBtn (run (resume v h data txt r) s)
  = (fun _ => {| innerHTML := txt; disabled := false |}) <$> submitBtn s.
Proof.
  rewrite resume_run. unfold restored. frames.
  assert (Hb : forall s', submitBtn s' = submitBtn s ->
                 set_disabled false <$> (set_innerHTML txt <$> submitBtn s')
                 = (fun _ => {| innerHTML := txt; disabled := false |})
                     <$> submitBtn s).
  { intros s' ->. destruct (submitBtn s); reflexivity. }
  apply Hb.
  destruct r as [| e]; [| apply submitBtn_caught].
  pose proof (submitBtn_afterAwait v h data s) as HA.
  destruct (afterAwait v h data Resolved s) as [s1 [[] | e]]; cbn [fst] in HA.
  - exact HA.
  - rewrite submitBtn_caught. exact HA.
Qed.

Lemma step_Timer_Resolve v h s i d data txt :
  timers s !! i = Some (d, Resolve data txt) ->
  step v h (Timer i) s
  = run (resume v h data txt Resolved) (upd_timers (remove_nth i) s).
Proof. intros Hi. cbn [step]. rewrite Hi. reflexivity. Qed.

Lemma trace_caught v e s :
  trace (caught v e s)
  = trace s ++ [ConsoleError e; Shown (fresh s) msg_failed error].
Proof.
  unfold caught. rewrite trace_showNotification. frames.
  rewrite <- app_assoc. reflexivity.
Qed.

Lemma toasts_caught v e s :
  toasts (caught v e s)
  = tail (toasts s)
    ++ [{| toast_id := fresh s; message := msg_failed; level := error;
           animation := slideInRight |}].
Proof. unfold caught. rewrite toasts_showNotification. reflexivity. Qed.

Lemma toasts_announced v h data s :
  toasts (announced v h data s)
  = tail (toasts s)
    ++ [{| toast_id := fresh s;
           message := or_default (successMessage h) msg_sent;
           level := success; animation := slideInRight |}].
Proof. unfold announced. rewrite toasts_showNotification. reflexivity. Qed.

Lemma form_caught v e s : form (caught v e s) = form s.
Proof. unfold caught. rewrite form_showNotification. reflexivity. Qed.

Lemma trace_announced v h data s :
  trace (announced v h data s)
  = trace s
    ++ [ConsoleLog data;
        Shown (fresh s) (or_default (successMessage h) msg_sent) success].
Proof.
  unfold announced. rewrite trace_showNotification. frames.
  rewrite <- app_assoc. reflexivity.
Qed.

Lemma fresh_announced v h data s : fresh (announced v h data s) = S (fresh s).
Proof. unfold announced. rewrite fresh_showNotification. reflexivity. Qed.

Lemma form_announced v h data s : form (announced v h data s) = form s.
Proof. unfold announced. rewrite form_showNotification. reflexivity. Qed.

(** The effects of the listener once the transmission has resolved:
    the log and the success notification, then the callback, and the
    catch block when a statement of the try block has thrown. *)
Lemma trace_resume_resolved v h data txt s :
  trace (run (resume v h data txt Resolved) s)
  = trace s ++ resolved_effects v h data (form s) (fresh s).
Proof.
  rewrite resume_run, afterAwait_run. cbv zeta.
  unfold restored, resolved_effects.
  destruct (closable v (or_default (successMessage h) msg_sent));
    cbn [negb andb].
  - destruct (shadowed "reset" (form s)); cbn [negb].
    + frames. rewrite trace_caught, trace_announced, fresh_announced.
      rewrite <- !app_assoc. reflexivity.
    + destruct (onSuccess h) as [f |].
      * destruct (f data) as [e |]; frames.
        -- rewrite trace_caught. frames.
           rewrite trace_announced, fresh_announced.
           rewrite <- !app_assoc. reflexivity.
        -- rewrite trace_announced. rewrite <- !app_assoc. reflexivity.
      * frames. rewrite trace_announced, app_nil_r. reflexivity.
  - frames. rewrite trace_caught, trace_announced, fresh_announced.
    rewrite <- !app_assoc. reflexivity.
Qed.

Lemma form_resume_resolved v h data txt s :
  form (run (resume v h data txt Resolved) s)
  = if negb (closable v (or_default (successMessage h) msg_sent))
       || shadowed "reset" (form s)
    then form s else reset (form s).
Proof.
  rewrite resume_run, afterAwait_run. cbv zeta. unfold restored.
  destruct (closable v (or_default (successMessage h) msg_sent));
    cbn [negb orb].
  - destruct (shadowed "reset" (form s)).
    + frames. rewrite form_caught, form_announced. reflexivity.
    + destruct (onSuccess h) as [f |].
      * destruct (f data); frames; rewrite ?form_caught; frames;
          rewrite form_announced; reflexivity.
      * frames. rewrite form_announced. reflexivity.
  - frames. rewrite form_caught, form_announced. reflexivity.
Qed.


Lemma resolved_effects_caught v h data cs id e :
  Uncaught e ∉ resolved_effects v h data cs id.
Proof.
  assert (H : Forall (fun x => match x with Uncaught _ => False | _ => True end)
                (resolved_effects v h data cs id)).
  { unfold resolved_effects.
    destruct (closable v (or_default (successMessage h) msg_sent));
      destruct (shadowed "reset" cs);
      destruct (onSuccess h) as [f |]; try destruct (f data);
      cbn; repeat constructor. }
  intros He. rewrite Forall_forall in H. exact (H _ He).
Qed.

(** C2. A submission with every field valid, on a form with its submit
    button, disables the button, replaces its label and sets the timer
    of the transmission.  When that timer runs, the listener restores
    the button: it is enabled and has the label it had when the
    submission began, and no exception leaves the listener.  The same
    holds of every pending transmission in every state of the page
    that has the button, and of the listener resumed by a promise that
    is rejected, whatever the statements of the try block do. *)
Theorem submit_button_restored (v : variant) (h : Handler) (s : Page)
    (b : Button) (Hb : submitBtn s = Some b)
    (Hv : forallb valid (fields (form s)) = true) :
  let s1 := step v h Submit s in
  let i := length (timers s) in
  submitBtn s1 = Some {| innerHTML := spinner; disabled := true |}
  /\ timers s1 !! i
     = Some (2000, Resolve (fromEntries (FormData (form s))) (innerHTML b))
  /\ transmissions (trace s1) = S (transmissions (trace s))
  /\ submitBtn (step v h (Timer i) s1)
     = Some {| innerHTML := innerHTML b; disabled := false |}
  /\ (forall s2 j d data txt b2,
        timers s2 !! j = Some (d, Resolve data txt) ->
        submitBtn s2 = Some b2 ->
        submitBtn (step v h (Timer j) s2)
        = Some {| innerHTML := txt; disabled := false |}
        /\ forall e, Uncaught e ∈ trace (step v h (Timer j) s2) ->
                     Uncaught e ∈ trace s2)
  /\ (forall (r : settled) s2 data txt b2,
        submitBtn s2 = Some b2 ->
        submitBtn (run (resume v h data txt r) s2)
        = Some {| innerHTML := txt; disabled := false |}
        /\ snd (resume v h data txt r s2) = Normal tt).
Proof.
  cbv zeta.
  assert (Hstep : forall s2 j d data txt b2,
             timers s2 !! j = Some (d, Resolve data txt) ->
             submitBtn s2 = Some b2 ->
             submitBtn (step v h (Timer j) s2)
             = Some {| innerHTML := txt; disabled := false |}
             /\ forall e, Uncaught e ∈ trace (step v h (Timer j) s2) ->
                          Uncaught e ∈ trace s2).
  { intros s2 j d data txt b2 Hj Hb2.
    rewrite (step_Timer_Resolve _ _ _ _ _ _ _ Hj). split.
    - rewrite submitBtn_resume. frames. rewrite Hb2. reflexivity.
    - intros e. rewrite trace_resume_resolved. frames.
      intros [He | He]%elem_of_app; [exact He |].
      exfalso. exact (resolved_effects_caught _ _ _ _ _ _ He). }
  assert (Hs : step v h Submit s = submitting b s).
  { cbn [step]. rewrite onSubmit_run, Hv, Hb. reflexivity. }
  rewrite Hs.
  assert (Ht : timers (submitting b s) !! length (timers s)
               = Some (2000, Resolve (fromEntries (FormData (form s)))
                               (innerHTML b))).
  { unfold submitting, validated. frames.
    rewrite lookup_app_r by lia. rewrite Nat.sub_diag. reflexivity. }
  assert (Hbtn : submitBtn (submitting b s)
                 = Some {| innerHTML := spinner; disabled := true |}).
  { unfold submitting, validated. frames. rewrite Hb. reflexivity. }
  split; [exact Hbtn |]. split; [exact Ht |]. split.
  { assert (Htr : trace (submitting b s)
                  = trace s ++ [Transmit (fromEntries (FormData (form s)))])
      by reflexivity.
    rewrite Htr, transmissions_app. unfold transmissions. cbn. lia. }
  split; [exact (proj1 (Hstep _ _ _ _ _ _ Ht Hbtn)) |].
  split; [exact Hstep |].
  intros r s2 data txt b2 Hb2. split.
  - rewrite submitBtn_resume, Hb2. reflexivity.
  - apply resume_completes.
Qed.

Lemma C2_witness_rejected :
  submitBtn
    (step (FormFeedback text_parser) throwing_handler (Timer 0)
       (step (FormFeedback text_parser) throwing_handler Submit
          (page_of contact_form (Some send_button))))
  = Some send_button
  /\ submitBtn
       (run (resume (FormFeedback text_parser) throwing_handler
               (fromEntries (FormData contact_form)) (js "Enviar")
               (Rejected (Thrown (js "offline"))))
          (step (FormFeedback text_parser) throwing_handler Submit
             (page_of contact_form (Some send_button))))
     = Some send_button.
Proof.
  destruct (submit_button_restored (FormFeedback text_parser) throwing_handler
              (page_of contact_form (Some send_button)) send_button)
    as (_ & _ & _ & H1 & _ & H2).
  - reflexivity.
  - vm_compute. reflexivity.
  - split; [exact H1 |].
    refine (proj1 (H2 (Rejected (Thrown (js "offline"))) _ _ (js "Enviar")
                     {| innerHTML := spinner; disabled := true |} _)).
    vm_compute. reflexivity.
Defined.

(** C6.  A success message whose markup swallows the close button, in
    the notification of the form utilities: when the transmission has
    resolved, [showNotification] puts the success notification on the
    page and throws, and the listener goes to its catch block.  It
    logs the error and replaces the notification by the failure
    notification; it neither resets the form nor calls [onSuccess]. *)
Theorem success_message_without_button (p : Parser) (h : Handler)
    (m : jsstring) (s : Page) (i : nat) (d : N)
    (data : gmap jsstring jsstring) (txt : jsstring)
    (Hm : successMessage h = Some m) (Ht : truthy m = true)
    (Hp : has_close_button p m = false)
    (Hi : timers s !! i = Some (d, Resolve data txt))
    (Hone : (length (toasts s) <= 1)%nat) :
  let s' := step (FormFeedback p) h (Timer i) s in
  trace s'
  = trace s
    ++ [ConsoleLog data; Shown (fresh s) m success; ConsoleError TypeError;
        Shown (S (fresh s)) msg_failed error]
  /\ form s' = form s
  /\ toasts s'
     = [{| toast_id := S (fresh s); message := msg_failed; level := error;
           animation := slideInRight |}].
Proof.
  cbv zeta. rewrite (step_Timer_Resolve _ _ _ _ _ _ _ Hi).
  assert (Hd : or_default (successMessage h) msg_sent = m).
  { rewrite Hm. unfold or_default. rewrite Ht. reflexivity. }
  assert (Hc : closable (FormFeedback p) (or_default (successMessage h) msg_sent)
               = false) by (rewrite Hd; exact Hp).
  split; [| split].
  - rewrite trace_resume_resolved. frames.
    unfold resolved_effects, try_throws. rewrite Hc, Hd. reflexivity.
  - rewrite form_resume_resolved, Hc. reflexivity.
  - rewrite resume_run, afterAwait_run. cbv zeta. rewrite Hc. cbn [negb].
    unfold restored. frames.
    rewrite toasts_caught, toasts_announced, fresh_announced. frames.
    rewrite Hd.
    destruct (toasts s) as [| a [| a' l]]; simpl in *; try lia; reflexivity.
Qed.

Lemma C6_witness_comment :
  trace
    (step (FormFeedback text_parser) comment_handler (Timer 0)
       (step (FormFeedback text_parser) comment_handler Submit contact_page))
  = [Transmit (fromEntries (FormData contact_form));
     ConsoleLog (fromEntries (FormData contact_form));
     Shown 0 (js "<!--") success;
     ConsoleError TypeError;
     Shown 1 msg_failed error]
  /\ form
       (step (FormFeedback text_parser) comment_handler (Timer 0)
          (step (FormFeedback text_parser) comment_handler Submit contact_page))
     = contact_form.
Proof.
  destruct (success_message_without_button text_parser comment_handler
              (js "<!--")
              (step (FormFeedback text_parser) comment_handler Submit
                 contact_page)
              0%nat 2000 (fromEntries (FormData contact_form)) (js "Enviar"))
    as (H1 & H2 & _).
  - reflexivity.
  - reflexivity.
  - reflexivity.
  - vm_compute. reflexivity.
  - vm_compute. lia.
  - split; [exact H1 | exact H2].
Defined.





(* ================================================================== *)
(** * Further properties of the form utilities *)
(* ================================================================== *)

(** ** The two shape predicates, exactly *)

(** X1. [validateEmail] accepts exactly the strings made of a non-empty
    part, an [@], a non-empty part, a dot and a non-empty part, where
    no part holds white space or an [@]; the second and third parts
    may hold further dots. *)
Theorem validateEmail_iff (s : jsstring) :
  validateEmail s = true
  <-> exists x y z,
        s = x ++ at_sign :: y ++ dot :: z
        /\ x <> [] /\ y <> [] /\ z <> []
        /\ Forall (fun c => not_space_at c = true) (x ++ y ++ z).
Proof.
  split.
  - apply validateEmail_shape.
  - intros (x & y & z & -> & Hx & Hy & Hz & Hall).
    apply validateEmail_accepts; assumption.
Qed.

(** X2. [validatePhone] accepts exactly the non-empty strings made of
    digits, white space, [+], [-], [(] and [)] that hold at least seven
    digits. *)
Theorem validatePhone_exactly (s : jsstring) :
  validatePhone s = true
  <-> s <> []
      /\ Forall (fun c => is_digit c = true \/ is_space c = true
                          \/ c = 43 \/ c = 45 \/ c = 40 \/ c = 41) s
      /\ (7 <= length (List.filter is_digit s))%nat.
Proof.
  assert (Hc : forall c,
             phone_char c = true
             <-> (is_digit c = true \/ is_space c = true
                  \/ c = 43 \/ c = 45 \/ c = 40 \/ c = 41)).
  { intros c. unfold phone_char.
    rewrite !orb_true_iff, !N.eqb_eq. tauto. }
  assert (Hf : forall l : jsstring, strip_non_digits l = List.filter is_digit l).
  { intros l. unfold strip_non_digits.
    induction l as [| c l IH]; [reflexivity |].
    simpl. rewrite <- IH. destruct (is_digit c) eqn:Hd.
    - rewrite filter_cons_True by exact Hd. reflexivity.
    - rewrite filter_cons_False by (rewrite Hd; discriminate). reflexivity. }
  rewrite validatePhone_iff, Hf. split.
  - intros (Hne & Hall & Hl). repeat split; try assumption.
    eapply Forall_impl; [exact Hall |]. intros c. apply Hc.
  - intros (Hne & Hall & Hl). repeat split; try assumption.
    eapply Forall_impl; [exact Hall |]. intros c. apply Hc.
Qed.

(** ** Blank values *)

Lemma trimStart_blank s : blank s -> trimStart s = [].
Proof.
  induction 1 as [| c s Hc _ IH]; simpl; [reflexivity |].
  rewrite Hc. exact IH.
Qed.

Lemma trimStart_head s c t : trimStart s = c :: t -> is_space c = false.
Proof.
  induction s as [| a s IH]; simpl; [discriminate |].
  destruct (is_space a) eqn:Ha; [exact IH |].
  intros [= <- _]. exact Ha.
Qed.

Lemma trimStart_nil s : trimStart s = [] -> blank s.
Proof.
  induction s as [| a s IH]; simpl; [constructor |].
  destruct (is_space a) eqn:Ha; [| discriminate].
  intros H. constructor; [exact Ha | apply IH, H].
Qed.

Lemma trim_nil_iff s : trim s = [] <-> blank s.
Proof.
  unfold trim, trimEnd. split.
  - intros H. apply trimStart_nil.
    destruct (trimStart s) as [| c t] eqn:Hs; [reflexivity |].
    apply (f_equal (@rev N)) in H. rewrite rev_involutive in H. simpl in H.
    apply trimStart_nil in H.
    apply trimStart_head in Hs.
    assert (Hc : is_space c = true).
    { unfold blank in H. rewrite Forall_forall in H. apply H.
      apply elem_of_app. right. left. }
    congruence.
  - intros H. rewrite (trimStart_blank s H). reflexivity.
Qed.

Lemma truthy_trim s : truthy (trim s) = false <-> blank s.
Proof.
  rewrite <- trim_nil_iff. destruct (trim s); simpl; split; congruence.
Qed.

Lemma blank_dec s : blank s \/ truthy (trim s) = true.
Proof.
  destruct (truthy (trim s)) eqn:Ht; [right; reflexivity |].
  left. apply truthy_trim, Ht.
Qed.

(** X3. A required field fails the first check exactly when its value
    is empty or made of white space only; [validateField] then returns
    [false] with the message "Este campo es obligatorio", whatever the
    type or the other attributes of the field. *)
Theorem required_rejects_blank (x : focus)
    (Hreq : hasAttribute (target x) "required" = true) :
  (fails Required (target x) = true <-> blank (value (target x)))
  /\ (blank (value (target x)) ->
      validateField x
      = (showFieldError msg_required (clearFieldError x), false)).
Proof.
  assert (Hiff : fails Required (target x) = true <-> blank (value (target x))).
  { unfold fails. rewrite Hreq. cbn [andb].
    rewrite negb_true_iff. apply truthy_trim. }
  split; [exact Hiff |].
  intros Hb. apply Hiff in Hb.
  rewrite validateField_cases. unfold first_failing. cbn [List.find].
  rewrite Hb. reflexivity.
Qed.

Lemma X3_witness_spaces :
  validateField blank_required_focus
  = (showFieldError msg_required (clearFieldError blank_required_focus), false).
Proof.
  refine (proj2 (required_rejects_blank blank_required_focus _) _).
  - reflexivity.
  - repeat constructor.
Defined.

(** X4. A field that is not required and whose value is empty or blank
    skips the email and the phone check whatever its type.  It is
    rejected only by a [minlength] attribute that parses to a positive
    number, with the minimum-length message. *)
Theorem optional_blank_field (x : focus)
    (Hopt : hasAttribute (target x) "required" = false)
    (Hb : blank (value (target x))) :
  fails MinLength (target x)
  = hasAttribute (target x) "minlength"
    && positive (parseInt (getAttribute (target x) "minlength"))
  /\ validateField x
     = if fails MinLength (target x)
       then (showFieldError
               (msg_minlength (parseInt (getAttribute (target x) "minlength")))
               (clearFieldError x), false)
       else (clearFieldError x, true).
Proof.
  pose proof (proj2 (trim_nil_iff _) Hb) as Ht.
  split.
  - unfold fails, length_lt, positive. rewrite Ht.
    destruct (parseInt _); reflexivity.
  - rewrite validateField_cases. unfold first_failing. cbn [List.find].
    assert (H1 : fails Required (target x) = false).
    { unfold fails. rewrite Hopt. reflexivity. }
    assert (H2 : fails Email (target x) = false).
    { unfold fails. rewrite Ht. cbn [truthy]. apply andb_false_iff.
      left. apply andb_false_r. }
    assert (H3 : fails Phone (target x) = false).
    { unfold fails. rewrite Ht. cbn [truthy]. apply andb_false_iff.
      left. apply andb_false_r. }
    rewrite H1, H2, H3. destruct (fails MinLength (target x)); reflexivity.
Qed.

Lemma X4_witness_minlength :
  snd (validateField blank_optional_focus) = false.
Proof.
  destruct (optional_blank_field blank_optional_focus) as [_ H].
  - reflexivity.
  - repeat constructor.
  - rewrite H. reflexivity.
Defined.

(** ** Showing and clearing an annotation *)

Lemma focus_eta (y : focus) :
  {| before := before y; target := target y; after := after y |} = y.
Proof. destruct y; reflexivity. Qed.

Lemma remove_first_error_clean cs : errors cs = [] -> remove_first_error cs = None.
Proof.
  intros He. destruct (remove_first_error cs) as [cs' |] eqn:Hr; [| reflexivity].
  apply remove_first_error_Some in Hr. contradiction.
Qed.

Lemma remove_first_error_last cs h :
  errors cs = [] -> remove_first_error (cs ++ [FieldError h]) = Some cs.
Proof.
  induction cs as [| c cs IH]; intros He; [reflexivity |].
  rewrite errors_cons in He. apply app_eq_nil in He as [Hc Hcs].
  simpl. destruct c as [f | h' | cs2].
  - simpl. rewrite (IH Hcs). reflexivity.
  - discriminate.
  - rewrite remove_error_in_Elem.
    change (errors_of (Elem cs2)) with (errors cs2) in Hc.
    rewrite (remove_first_error_clean cs2 Hc). simpl.
    rewrite (IH Hcs). reflexivity.
Qed.

Lemma errors_clean_split y :
  errors (siblings y) = [] -> errors (before y) = [] /\ errors (after y) = [].
Proof. rewrite errors_siblings. apply app_eq_nil. Qed.

Lemma remove_error_clean y : errors (siblings y) = [] -> remove_error y = None.
Proof.
  intros He. apply errors_clean_split in He as [Hb Ha].
  unfold remove_error.
  rewrite (remove_first_error_clean _ Hb), (remove_first_error_clean _ Ha).
  reflexivity.
Qed.

Lemma showFieldError_clean m y :
  errors (siblings y) = [] ->
  showFieldError m y
  = appendChild (FieldError (error_html m))
      (with_target (set_borderColor (js "#ef4444")) y).
Proof.
  intros He. rewrite showFieldError_unfold.
  rewrite remove_error_clean by (rewrite errors_with_target; exact He).
  reflexivity.
Qed.

Lemma clearFieldError_clean y :
  errors (siblings y) = [] ->
  clearFieldError y = with_target (set_borderColor []) y.
Proof.
  intros He. rewrite clearFieldError_unfold.
  rewrite remove_error_clean by (rewrite errors_with_target; exact He).
  reflexivity.
Qed.

Lemma clearFieldError_appended h y :
  errors (siblings y) = [] ->
  clearFieldError (appendChild (FieldError h) y)
  = with_target (set_borderColor []) y.
Proof.
  intros He. apply errors_clean_split in He as [Hb Ha].
  unfold clearFieldError, remove_error, with_target, appendChild. simpl.
  rewrite (remove_first_error_clean _ Hb), (remove_first_error_last _ h Ha).
  reflexivity.
Qed.

Lemma clear_after_show (m : jsstring) (x : focus) :
  errors (siblings x) = [] ->
  clearFieldError (showFieldError m x) = with_target (set_borderColor []) x.
Proof.
  intros Hclean.
  rewrite showFieldError_clean by exact Hclean.
  rewrite clearFieldError_appended
    by (rewrite errors_with_target; exact Hclean).
  reflexivity.
Qed.

(** X5. On a field whose parent holds no annotation,
    [showFieldError] followed by [clearFieldError] gives back the
    parent as it was, with the border colour of the field empty: the
    annotation added is the one removed. *)
Theorem show_then_clear (m : jsstring) (x : focus)
    (Hclean : errors (siblings x) = []) :
  clearFieldError (showFieldError m x) = with_target (set_borderColor []) x
  /\ siblings (clearFieldError (showFieldError m x))
     = before x ++ Input (set_borderColor [] (target x)) :: after x.
Proof.
  pose proof (clear_after_show m x Hclean) as H.
  split; [exact H | rewrite H; reflexivity].
Qed.

Lemma X5_witness_round_trip :
  clearFieldError (showFieldError msg_required bad_email_focus)
  = with_target (set_borderColor []) bad_email_focus.
Proof.
  refine (proj1 (show_then_clear msg_required bad_email_focus _)).
  reflexivity.
Defined.

(** X6. On a field whose parent holds at most one annotation,
    validating twice is validating once: the second call of
    [validateField] returns what the first returned and leaves the
    parent as the first left it. *)
Theorem validateField_idempotent (x : focus)
    (Hone : (length (errors (siblings x)) <= 1)%nat) :
  validateField (fst (validateField x)) = validateField x.
Proof.
  assert (Hc : errors (siblings (clearFieldError x)) = []).
  { rewrite clearFieldError_errors.
    destruct (errors (siblings x)) as [| e [| e' l]]; simpl in *;
      [reflexivity | reflexivity | lia]. }
  destruct (clearFieldError_fields x) as (_ & _ & Ht).
  rewrite (validateField_cases x).
  destruct (first_failing (target x)) as [c |] eqn:Hff; cbn [fst].
  - set (m := check_message c (target x)).
    rewrite (showFieldError_clean m _ Hc).
    set (y := with_target (set_borderColor (js "#ef4444")) (clearFieldError x)).
    assert (Hy : errors (siblings y) = []).
    { unfold y. rewrite errors_with_target. exact Hc. }
    rewrite validateField_cases.
    assert (Hty : target (appendChild (FieldError (error_html m)) y)
                  = set_borderColor (js "#ef4444") (target x)).
    { unfold y. simpl. rewrite Ht. reflexivity. }
    rewrite Hty.
    change (first_failing (set_borderColor (js "#ef4444") (target x)))
      with (first_failing (target x)).
    rewrite Hff.
    change (check_message c (set_borderColor (js "#ef4444") (target x)))
      with m.
    rewrite (clearFieldError_appended _ y Hy).
    rewrite showFieldError_clean by (rewrite errors_with_target; exact Hy).
    reflexivity.
  - rewrite validateField_cases.
    rewrite Ht.
    change (first_failing (set_borderColor [] (target x)))
      with (first_failing (target x)).
    rewrite Hff. f_equal.
    rewrite (clearFieldError_clean _ Hc).
    unfold with_target.
    replace (set_borderColor [] (target (clearFieldError x)))
      with (target (clearFieldError x)) by (rewrite Ht; reflexivity).
    apply focus_eta.
Qed.

Lemma X6_witness_twice :
  validateField (fst (validateField bad_email_focus))
  = validateField bad_email_focus.
Proof.
  refine (validateField_idempotent bad_email_focus _).
  vm_compute. lia.
Defined.

(** ** What the listeners leave alone *)

Lemma clearFieldErrorAt_fields k cs :
  unstyled <$> fields (clearFieldErrorAt k cs) = unstyled <$> fields cs.
Proof.
  unfold clearFieldErrorAt. apply at_field_fields. intros x. cbn [fst].
  destruct (clearFieldError_fields x) as (H1 & H2 & H3).
  rewrite H1, H2, H3. auto.
Qed.

Lemma form_onSubmit v s :
  form (run (onSubmit v) s) = fst (validateAll (form s)).
Proof.
  rewrite onSubmit_run.
  destruct (forallb valid (fields (form s)));
    [| rewrite form_showNotification; reflexivity].
  destruct (submitBtn s); reflexivity.
Qed.

(** X7. Validation never touches what a control holds: after a submit,
    a blur, a focus, a click on the close button or a notification,
    every control of the form has the name, type, value, default value
    and attributes it had, and the form has the same controls in the
    same order.  Only the border colours and the annotations change. *)
Theorem listeners_keep_values (v : variant) (h : Handler) (e : event)
    (s : Page) (He : edits_values e = false) :
  unstyled <$> fields (form (step v h e s)) = unstyled <$> fields (form s)
  /\ length (fields (form (step v h e s))) = length (fields (form s))
  /\ FormData (form (step v h e s)) = FormData (form s).
Proof.
  assert (H : unstyled <$> fields (form (step v h e s))
              = unstyled <$> fields (form s)).
  { destruct e as [| i | id | k | k | k text | m t]; try discriminate;
      cbn [step].
    - rewrite form_onSubmit. apply validateAll_fields.
    - destruct v; [destruct (attached id s) |]; reflexivity.
    - apply validateFieldAt_fields.
    - apply clearFieldErrorAt_fields.
    - rewrite run_showNotification.
      destruct (closable v m); frames; rewrite form_showNotification;
        reflexivity. }
  split; [exact H |]. split.
  - apply (f_equal length) in H. rewrite !length_fmap in H. exact H.
  - unfold FormData. apply omap_unstyled; [reflexivity | exact H].
Qed.

Lemma X7_witness_blur :
  FormData (form (step (FormFeedback text_parser) plain_handler (Blur 1) contact_page))
  = FormData contact_form.
Proof.
  refine (proj2 (proj2
            (listeners_keep_values (FormFeedback text_parser) plain_handler (Blur 1)
               contact_page _))).
  reflexivity.
Defined.

(** ** The collected data *)







(** ** A form without submit button *)

(** X9. On a form without [button[type="submit"]], a submission whose
    fields are all valid ends on a [TypeError] that nothing catches:
    the fields have been validated, and no transmission is started, no
    notification shown, no timer set. *)
Theorem valid_submit_without_button (v : variant) (h : Handler) (s : Page)
    (Hb : submitBtn s = None)
    (Hv : forallb valid (fields (form s)) = true) :
  step v h Submit s = record (Uncaught TypeError) (validated s)
  /\ trace (step v h Submit s) = trace s ++ [Uncaught TypeError]
  /\ timers (step v h Submit s) = timers s
  /\ toasts (step v h Submit s) = toasts s
  /\ submitBtn (step v h Submit s) = None.
Proof.
  cbn [step]. rewrite onSubmit_run, Hv, Hb.
  repeat split; try reflexivity. unfold validated. frames. exact Hb.
Qed.

Lemma X9_witness_no_button :
  trace (step PageFeedback plain_handler Submit (page_of contact_form None))
  = [Uncaught TypeError].
Proof.
  refine (proj1 (proj2
            (valid_submit_without_button PageFeedback plain_handler
               (page_of contact_form None) _ _))).
  - reflexivity.
  - vm_compute. reflexivity.
Defined.

(** ** The notification left by a submission *)




(** ** The life of a notification *)

Lemma remove_nth_last {A : Type} (l : list A) (a : A) :
  remove_nth (length l) (l ++ [a]) = l.
Proof.
  unfold remove_nth.
  rewrite take_app_length, drop_app_ge by lia.
  replace (S (length l) - length l)%nat with 1%nat by lia.
  simpl. apply app_nil_r.
Qed.

Lemma lookup_last {A : Type} (l : list A) (a : A) :
  (l ++ [a]) !! length l = Some a.
Proof. rewrite lookup_app_r by lia. rewrite Nat.sub_diag. reflexivity. Qed.

Lemma toasts_not_attached id s :
  attached id s = false ->
  toasts (detach id s) = toasts s
  /\ toasts (animate id slideOutRight s) = toasts s.
Proof.
  unfold attached. frames. induction (toasts s) as [| n l IH]; [auto |].
  simpl. intros Hn. apply orb_false_iff in Hn as [Hn Hl].
  destruct (IH Hl) as [IH1 IH2]. rewrite Hn. simpl.
  rewrite IH1, IH2. auto.
Qed.

(** X11. A notification whose call returned, and that nobody closes
    and nothing evicts, goes in two steps.  Its timer, of 5 s in the
    form utilities and 3 s in the page script, starts the exit
    animation and sets a timer of 300 ms; that one removes the
    notification.  Nothing is then left of it, neither on the page nor
    among the timers.  A notification of the form utilities whose
    markup has no close button is on the page when the call throws,
    and no timer is set for it. *)
Theorem notification_dismisses_itself (v : variant) (h : Handler) (s : Page)
    (Hr : reachable v h s) (m : jsstring) (t : severity) :
  let i := length (timers s) in
  let s1 := fst (showNotification v m t s) in
  let s2 := step v h (Timer i) s1 in
  let s3 := step v h (Timer i) s2 in
  toasts s1
  = [{| toast_id := fresh s; message := m; level := t;
        animation := slideInRight |}]
  /\ (closable v m = true ->
      snd (showNotification v m t s) = Normal tt
      /\ timers s1 !! i = Some (dismiss_delay v, AutoDismiss (fresh s))
      /\ toasts s2
         = [{| toast_id := fresh s; message := m; level := t;
               animation := slideOutRight |}]
      /\ timers s2 = timers s ++ [(300, Detach (fresh s))]
      /\ toasts s3 = []
      /\ timers s3 = timers s)
  /\ (closable v m = false ->
      snd (showNotification v m t s) = Throw TypeError
      /\ timers s1 = timers s).
Proof.
  intros i s1 s2 s3.
  pose proof (toasts_show_single v m t s (reachable_Inv v h s Hr)) as Hn.
  fold s1 in Hn.
  split; [exact Hn |]. split.
  2:{ intros Hc. rewrite snd_showNotification, Hc. split; [reflexivity |].
      unfold s1. rewrite timers_showNotification, Hc. apply app_nil_r. }
  intros Hc.
  assert (Hm1 : timers s1
                = timers s ++ [(dismiss_delay v, AutoDismiss (fresh s))]).
  { unfold s1. rewrite timers_showNotification, Hc. reflexivity. }
  assert (H1 : timers s1 !! i = Some (dismiss_delay v, AutoDismiss (fresh s))).
  { unfold i. rewrite Hm1. apply lookup_last. }
  assert (Hrm : timers (upd_timers (remove_nth i) s1) = timers s).
  { unfold i. cbn [timers upd_timers]. rewrite Hm1.
    apply remove_nth_last. }
  assert (Ha : attached (fresh s) (upd_timers (remove_nth i) s1) = true).
  { unfold attached. cbn [toasts upd_timers]. rewrite Hn. simpl.
    rewrite Nat.eqb_refl. reflexivity. }
  assert (H2 : s2 = setTimeout (Detach (fresh s)) 300
                      (animate (fresh s) slideOutRight
                         (upd_timers (remove_nth i) s1))).
  { unfold s2. cbn [step]. rewrite H1. cbn [fire]. unfold autoDismiss.
    destruct v; [rewrite Ha |]; reflexivity. }
  assert (Ht2 : toasts s2
                = [{| toast_id := fresh s; message := m; level := t;
                      animation := slideOutRight |}]).
  { rewrite H2. frames. rewrite Hn. simpl. rewrite Nat.eqb_refl. reflexivity. }
  assert (Hm2 : timers s2 = timers s ++ [(300, Detach (fresh s))]).
  { rewrite H2. cbn [timers setTimeout upd_timers animate upd_toasts].
    cbn [timers upd_timers] in Hrm. rewrite Hrm. reflexivity. }
  split; [rewrite snd_showNotification, Hc; reflexivity |].
  split; [exact H1 |]. split; [exact Ht2 |]. split; [exact Hm2 |].
  assert (H3 : s3 = detach (fresh s) (upd_timers (remove_nth i) s2)).
  { unfold s3. cbn [step]. rewrite Hm2. unfold i. rewrite lookup_last.
    reflexivity. }
  rewrite H3. split.
  - frames. rewrite Ht2. simpl. rewrite Nat.eqb_refl. reflexivity.
  - cbn [timers detach upd_toasts upd_timers]. rewrite Hm2. unfold i.
    apply remove_nth_last.
Qed.

Lemma X11_witness_page_script :
  toasts
    (step PageFeedback plain_handler (Timer 0)
       (step PageFeedback plain_handler (Timer 0)
          (fst (showNotification PageFeedback (js "hola") info
                  (page_of [] None)))))
  = []
  /\ snd (showNotification (FormFeedback text_parser) (js "<!--") info
            (page_of [] None))
     = Throw TypeError.
Proof.
  split.
  - refine (proj1 (proj2 (proj2 (proj2 (proj2
              (proj1 (proj2
                 (notification_dismisses_itself PageFeedback plain_handler
                    (page_of [] None) _ (js "hola") info)) _)))))).
    + apply reach_loaded. repeat split.
    + reflexivity.
  - refine (proj1
              (proj2 (proj2
                 (notification_dismisses_itself (FormFeedback text_parser)
                    plain_handler (page_of [] None) _ (js "<!--") info)) _)).
    + apply reach_loaded. repeat split.
    + reflexivity.
Defined.

(** X12. The timer of a notification that is no longer on the page
    changes no notification.  In the form utilities its callback tests
    [notification.parentElement] and does nothing more; in the page
    script it still sets the timer of 300 ms, whose callback removes
    nothing. *)
Theorem stale_timer_is_harmless (v : variant) (h : Handler) (s : Page)
    (i : nat) (d : N) (c : callback) (id : nat)
    (Hi : timers s !! i = Some (d, c)) (Hc : timer_target c = Some id)
    (Ha : attached id s = false) :
  toasts (step v h (Timer i) s) = toasts s
  /\ timers (step v h (Timer i) s)
     = match c, v with
       | AutoDismiss _, PageFeedback =>
           remove_nth i (timers s) ++ [(300, Detach id)]
       | _, _ => remove_nth i (timers s)
       end.
Proof.
  cbn [step]. rewrite Hi.
  set (s0 := upd_timers (remove_nth i) s).
  assert (Ha0 : attached id s0 = false) by exact Ha.
  destruct (toasts_not_attached id s0 Ha0) as [Hd Hn].
  destruct c as [id' | id' | data txt]; try discriminate;
    injection Hc as ->; cbn [fire].
  - unfold autoDismiss. destruct v.
    + rewrite Ha0. split; reflexivity.
    + split; [exact Hn | reflexivity].
  - split; [exact Hd | destruct v; reflexivity].
Qed.

Lemma X12_witness_evicted :
  toasts
    (step (FormFeedback text_parser) plain_handler (Timer 0)
       (fst (showNotification (FormFeedback text_parser) (js "two") info
          (fst (showNotification (FormFeedback text_parser) (js "one") info
                  (page_of [] None))))))
  = toasts
      (fst (showNotification (FormFeedback text_parser) (js "two") info
         (fst (showNotification (FormFeedback text_parser) (js "one") info
                 (page_of [] None))))).
Proof.
  refine (proj1
            (stale_timer_is_harmless (FormFeedback text_parser) plain_handler
               (fst (showNotification (FormFeedback text_parser) (js "two") info
                  (fst (showNotification (FormFeedback text_parser) (js "one")
                          info (page_of [] None)))))
               0%nat 5000 (AutoDismiss 0) 0%nat _ _ _));
    reflexivity.
Defined.

(** X13. A click on the close button of a notification, which only the
    form utilities give it, starts the exit animation and sets a timer
    of 300 ms that removes the notification; the timer of 5 s of that
    notification stays pending. *)
Theorem close_button_removes (p : Parser) (h : Handler) (s : Page)
    (n : Toast) (Hn : toasts s = [n]) :
  let s1 := step (FormFeedback p) h (Close (toast_id n)) s in
  let s2 := step (FormFeedback p) h (Timer (length (timers s))) s1 in
  toasts s1 = [set_animation slideOutRight n]
  /\ timers s1 = timers s ++ [(300, Detach (toast_id n))]
  /\ toasts s2 = []
  /\ timers s2 = timers s
  /\ step PageFeedback h (Close (toast_id n)) s = s.
Proof.
  intros s1 s2.
  assert (Ha : attached (toast_id n) s = true).
  { unfold attached. rewrite Hn. simpl. rewrite Nat.eqb_refl. reflexivity. }
  assert (H1 : s1 = closeClick (toast_id n) s).
  { unfold s1. cbn [step]. rewrite Ha. reflexivity. }
  assert (Ht1 : toasts s1 = [set_animation slideOutRight n]).
  { rewrite H1. frames. rewrite Hn. simpl. rewrite Nat.eqb_refl. reflexivity. }
  assert (Hm1 : timers s1 = timers s ++ [(300, Detach (toast_id n))]).
  { rewrite H1. reflexivity. }
  split; [exact Ht1 |]. split; [exact Hm1 |].
  assert (H2 : s2 = detach (toast_id n)
                      (upd_timers (remove_nth (length (timers s))) s1)).
  { unfold s2. cbn [step]. rewrite Hm1, lookup_last. reflexivity. }
  rewrite H2. split; [| split].
  - frames. rewrite Ht1. simpl. rewrite Nat.eqb_refl. reflexivity.
  - cbn [timers detach upd_toasts upd_timers]. rewrite Hm1.
    apply remove_nth_last.
  - reflexivity.
Qed.

Lemma X13_witness_close :
  toasts
    (step (FormFeedback text_parser) plain_handler (Timer 1)
       (step (FormFeedback text_parser) plain_handler (Close 0)
          (step (FormFeedback text_parser) plain_handler (Show (js "hola") info)
             (page_of [] None))))
  = [].
Proof.
  refine (proj1 (proj2 (proj2
            (close_button_removes text_parser plain_handler
               (step (FormFeedback text_parser) plain_handler (Show (js "hola") info)
                  (page_of [] None))
               {| toast_id := 0; message := js "hola"; level := info;
                  animation := slideInRight |} _)))).
  reflexivity.
Defined.

(** ** Blur, then focus *)

(** X14. On a field whose parent holds at most one annotation, the
    focus listener undoes what the blur listener showed:
    [clearFieldError] after [validateField] leaves the parent as
    [clearFieldError] alone does, without annotation and with the
    border colour empty. *)
Theorem focus_after_blur (x : focus)
    (Hone : (length (errors (siblings x)) <= 1)%nat) :
  clearFieldError (fst (validateField x)) = clearFieldError x
  /\ errors (siblings (clearFieldError (fst (validateField x)))) = []
  /\ borderColor (target (clearFieldError (fst (validateField x)))) = [].
Proof.
  assert (Hc : errors (siblings (clearFieldError x)) = []).
  { rewrite clearFieldError_errors.
    destruct (errors (siblings x)) as [| e [| e' l]]; simpl in *;
      [reflexivity | reflexivity | lia]. }
  destruct (clearFieldError_fields x) as (_ & _ & Ht).
  assert (Hid : with_target (set_borderColor []) (clearFieldError x)
                = clearFieldError x).
  { unfold with_target.
    replace (set_borderColor [] (target (clearFieldError x)))
      with (target (clearFieldError x)) by (rewrite Ht; reflexivity).
    apply focus_eta. }
  assert (H : clearFieldError (fst (validateField x)) = clearFieldError x).
  { rewrite validateField_cases.
    destruct (first_failing (target x)) as [c |]; cbn [fst].
    - rewrite (clear_after_show _ _ Hc). exact Hid.
    - rewrite (clearFieldError_clean _ Hc). exact Hid. }
  rewrite H. split; [reflexivity |]. split; [exact Hc |].
  rewrite Ht. reflexivity.
Qed.

Lemma X14_witness_email :
  clearFieldError (fst (validateField bad_email_focus))
  = clearFieldError bad_email_focus.
Proof.
  refine (proj1 (focus_after_blur bad_email_focus _)).
  vm_compute. lia.
Defined.

(** ** The character counter *)

(** X15. The counter is amber when fewer than 50 characters remain and
    has the secondary text colour otherwise.  It is never red: the
    test for fewer than 20 comes after the test for fewer than 50 and
    is never reached. *)
Theorem counter_never_red (maxLength : Z) (value : jsstring) :
  color (updateCounter maxLength value) <> red
  /\ (color (updateCounter maxLength value) = amber
      <-> (maxLength - Z.of_nat (length value) < 50)%Z)
  /\ (color (updateCounter maxLength value) = text_secondary
      <-> (50 <= maxLength - Z.of_nat (length value))%Z)
  /\ textContent (updateCounter maxLength value)
     = NumberToString (maxLength - Z.of_nat (length value))
       ++ js " caracteres restantes".
Proof.
  unfold updateCounter. cbn [color textContent].
  destruct (Z.ltb_spec (maxLength - Z.of_nat (length value)) 50) as [H | H].
  - repeat split; try discriminate; intros; try lia; reflexivity.
  - destruct (Z.ltb_spec (maxLength - Z.of_nat (length value)) 20) as [H' | H'];
      [lia |].
    repeat split; try discriminate; intros; try lia; reflexivity.
Qed.

Lemma hasAttribute_setAttribute_other f a b v :
  js a <> js b -> hasAttribute (setAttribute a v f) b = hasAttribute f b.
Proof.
  intros Hne. unfold hasAttribute, setAttribute. simpl.
  rewrite lookup_insert_ne by exact Hne. reflexivity.
Qed.

Lemma getAttribute_setAttribute_other f a b v :
  js a <> js b -> getAttribute (setAttribute a v f) b = getAttribute f b.
Proof.
  intros Hne. unfold getAttribute, setAttribute. simpl.
  rewrite lookup_insert_ne by exact Hne. reflexivity.
Qed.

Lemma first_failing_maxlength v f :
  first_failing (setAttribute "maxlength" v f) = first_failing f.
Proof.
  unfold first_failing, fails. cbn [List.find].
  rewrite !hasAttribute_setAttribute_other by discriminate.
  rewrite getAttribute_setAttribute_other by discriminate.
  reflexivity.
Qed.

(** X16. [addCharacterCounter] sets the [maxlength] attribute of the
    textarea and appends one element to its parent.  It changes
    neither the annotations of the parent nor what [validateField]
    returns for the textarea, which reads [minlength] and never
    [maxlength]; and the counter starts from the length of the value
    as typed, white space included. *)
Theorem counter_keeps_validation (maxLength : Z) (x : focus) :
  siblings (fst (addCharacterCounter maxLength x))
  = before x
    ++ Input (setAttribute "maxlength" (NumberToString maxLength) (target x))
    :: after x ++ [Elem []]
  /\ getAttribute (target (fst (addCharacterCounter maxLength x))) "maxlength"
     = NumberToString maxLength
  /\ errors (siblings (fst (addCharacterCounter maxLength x)))
     = errors (siblings x)
  /\ snd (validateField (fst (addCharacterCounter maxLength x)))
     = snd (validateField x)
  /\ snd (addCharacterCounter maxLength x)
     = updateCounter maxLength (value (target x)).
Proof.
  unfold addCharacterCounter. cbn [fst snd].
  split; [reflexivity |]. split.
  { unfold getAttribute, setAttribute. simpl. rewrite lookup_insert_eq.
    reflexivity. }
  split.
  { rewrite !errors_siblings. simpl. rewrite errors_app. simpl.
    rewrite app_nil_r. reflexivity. }
  split; [| reflexivity].
  rewrite !validateField_valid. simpl.
  rewrite first_failing_maxlength. reflexivity.
Qed.

(** ** Form analytics *)

Lemma track_other fi e k :
  is_focus_on k e = false -> is_change_on k e = false ->
  track fi e !! k = fi !! k.
Proof.
  destruct e as [k' now | k']; simpl; intros Hf Hc.
  - apply bool_decide_eq_false in Hf. unfold onFocus.
    destruct (fi !! k'); [reflexivity |].
    destruct (inherited k'); [reflexivity |].
    apply lookup_insert_ne. exact Hf.
  - apply bool_decide_eq_false in Hc. unfold onChange.
    destruct (fi !! k'); [| reflexivity].
    apply lookup_insert_ne. exact Hc.
Qed.

Lemma track_absent es : forall fi k,
  fi !! k = None ->
  Forall (fun e => is_focus_on k e = false) es ->
  foldl track fi es !! k = None.
Proof.
  induction es as [| e es IH]; intros fi k Hk Hes; [exact Hk |].
  apply Forall_cons in Hes as [He Hes]. simpl. apply IH; [| exact Hes].
  destruct (is_change_on k e) eqn:Hc.
  - destruct e as [k' now | k']; [discriminate |]. simpl in Hc.
    apply bool_decide_eq_true in Hc. subst k'. simpl. unfold onChange.
    rewrite Hk. exact Hk.
  - rewrite track_other by assumption. exact Hk.
Qed.

Lemma track_present es : forall fi k e,
  fi !! k = Some e ->
  foldl track fi es !! k
  = Some {| focused := focused e;
            changes :=
              changes e + N.of_nat (length (List.filter (is_change_on k) es)) |}.
Proof.
  induction es as [| ev es IH]; intros fi k e Hk.
  - simpl. rewrite N.add_0_r. destruct e; exact Hk.
  - cbn [foldl List.filter].
    destruct (is_change_on k ev) eqn:Hc.
    + destruct ev as [k' now | k']; [discriminate |]. simpl in Hc.
      apply bool_decide_eq_true in Hc. subst k'.
      rewrite (IH (track fi (ChangeOn k)) k
                 {| focused := focused e; changes := changes e + 1 |}).
      * cbn [focused changes length]. f_equal. f_equal. lia.
      * simpl. unfold onChange. rewrite Hk. apply lookup_insert_eq.
    + apply IH. destruct (is_focus_on k ev) eqn:Hf.
      * destruct ev as [k' now | k']; [| discriminate]. simpl in Hf.
        apply bool_decide_eq_true in Hf. subst k'. simpl. unfold onFocus.
        rewrite Hk. exact Hk.
      * rewrite track_other by assumption. exact Hk.
Qed.

(** X17. For a field name that a plain object does not inherit,
    [fieldInteractions] has an entry exactly once the field has been
    focused.  The entry keeps the time of the first focus, whatever
    comes later, and counts the changes made after that first focus:
    a change made before it is not counted. *)
Theorem tracked_entry (k : jsstring) (Hk : inherited k = false) :
  (forall es,
      Forall (fun e => is_focus_on k e = false) es -> tracked es !! k = None)
  /\ (forall pre now post,
        Forall (fun e => is_focus_on k e = false) pre ->
        tracked (pre ++ FocusOn k now :: post) !! k
        = Some {| focused := now;
                  changes :=
                    N.of_nat (length (List.filter (is_change_on k) post)) |}).
Proof.
  split.
  - intros es Hes. apply track_absent; [apply lookup_empty | exact Hes].
  - intros pre now post Hpre. unfold tracked. rewrite foldl_app.
    cbn [foldl].
    pose proof (track_absent pre ∅ k (lookup_empty k) Hpre) as Hnone.
    rewrite (track_present post _ k {| focused := now; changes := 0 |}).
    + reflexivity.
    + simpl. unfold onFocus. rewrite Hnone, Hk. apply lookup_insert_eq.
Qed.

Lemma X17_witness_email :
  tracked [ChangeOn (js "email"); FocusOn (js "name") 5;
           FocusOn (js "email") 10; ChangeOn (js "email");
           FocusOn (js "email") 20; ChangeOn (js "email")]
  !! js "email"
  = Some {| focused := 10; changes := 2 |}.
Proof.
  refine (proj2 (tracked_entry (js "email") _)
            [ChangeOn (js "email"); FocusOn (js "name") 5] 10
            [ChangeOn (js "email"); FocusOn (js "email") 20;
             ChangeOn (js "email")] _).
  - reflexivity.
  - repeat constructor.
Defined.

(** X18. A field whose name is a property that every object inherits,
    such as [constructor] or [toString], is never entered in
    [fieldInteractions]: the test that guards the first entry finds
    the inherited property. *)
Theorem inherited_name_untracked (k : jsstring) (Hk : inherited k = true)
    (es : list interaction) :
  tracked es !! k = None.
Proof.
  unfold tracked.
  assert (H : forall fi, fi !! k = None -> foldl track fi es !! k = None).
  { induction es as [| e es IH]; intros fi Hfi; [exact Hfi |].
    simpl. apply IH.
    destruct e as [k' now | k']; simpl.
    - unfold onFocus. destruct (fi !! k') eqn:Hk'; [exact Hfi |].
      destruct (inherited k') eqn:Hi; [exact Hfi |].
      rewrite lookup_insert_ne; [exact Hfi | congruence].
    - unfold onChange. destruct (fi !! k') eqn:Hk'; [| exact Hfi].
      rewrite lookup_insert_ne; [exact Hfi | congruence]. }
  apply H, lookup_empty.
Qed.

Lemma X18_witness_constructor :
  tracked [FocusOn (js "constructor") 3; ChangeOn (js "constructor")]
  !! js "constructor"
  = None.
Proof.
  refine (inherited_name_untracked (js "constructor") _ _).
  reflexivity.
Defined.

(* ================================================================== *)
(** * Further properties of the page script *)

(** ** Mobile menu *)

Lemma spans_three (sp : list Span) :
  (3 <= length sp)%nat -> exists s0 s1 s2 rest, sp = s0 :: s1 :: s2 :: rest.
Proof.
  destruct sp as [| s0 [| s1 [| s2 rest]]]; simpl; try lia.
  intros _. exists s0, s1, s2, rest. reflexivity.
Qed.

Lemma Span_eta (sp : Span) :
  {| transform := transform sp; opacity := opacity sp |} = sp.
Proof. destruct sp; reflexivity. Qed.

(** X19.  When the menu button has its three spans, each of its
    handlers ends normally with the icon drawn for the state of the
    menu it leaves: a click on the button inverts the state, a click
    on a link in a window of at most 768 pixels and the Escape key on
    an open menu close it. *)
Theorem menu_icon_follows_state (m : Menu)
    (H3 : (3 <= length (spans m))%nat) :
  (exists m', menuClick m = (m', Normal tt)
              /\ active m' = negb (active m)
              /\ icon_shows (active m') (spans m')
              /\ length (spans m') = length (spans m))
  /\ (forall w, (w <= 768)%Z ->
        exists m', linkClick w m = (m', Normal tt)
                   /\ active m' = false
                   /\ icon_shows false (spans m'))
  /\ (active m = true ->
        exists m', keydown (js "Escape") m = (m', Normal tt)
                   /\ active m' = false
                   /\ icon_shows false (spans m')).
Proof.
  destruct m as [a sp]. cbn [spans active] in *.
  destruct (spans_three sp H3) as (s0 & s1 & s2 & rest & ->).
  split; [| split].
  - destruct a; eexists; (split; [reflexivity |]); cbn;
      (split; [reflexivity |]);
      (split; [| reflexivity]);
      eexists _, _, _, _; (split; [reflexivity |]); cbn; auto.
  - intros w Hw. unfold linkClick.
    apply Z.leb_le in Hw. rewrite Hw.
    eexists; (split; [reflexivity |]); cbn.
    split; [reflexivity |].
    eexists _, _, _, _; (split; [reflexivity |]); cbn; auto.
  - intros ->.
    eexists; (split; [reflexivity |]); cbn.
    split; [reflexivity |].
    eexists _, _, _, _; (split; [reflexivity |]); cbn; auto.
Qed.

Lemma X19_witness_closed_menu :
  exists m', menuClick closed_menu = (m', Normal tt)
             /\ active m' = negb (active closed_menu)
             /\ icon_shows (active m') (spans m')
             /\ length (spans m') = length (spans closed_menu).
Proof.
  apply (menu_icon_follows_state closed_menu). simpl. lia.
Defined.

(** X20.  On a menu whose icon is drawn for its state, two clicks on
    the button give back the menu as it was. *)
Theorem menu_click_twice (m : Menu)
    (Hi : icon_shows (active m) (spans m)) :
  thenS menuClick menuClick m = (m, Normal tt).
Proof.
  destruct m as [a sp]. cbn [spans active] in *.
  destruct Hi as (s0 & s1 & s2 & rest & -> & H0 & H1 & H2).
  destruct s0 as [t0 o0], s1 as [t1 o1], s2 as [t2 o2].
  cbn [transform opacity] in *. subst.
  destruct a; reflexivity.
Qed.

Lemma open_menu_icon : icon_shows (active open_menu) (spans open_menu).
Proof. eexists _, _, _, _. repeat split. Qed.

Lemma X20_witness_open_menu :
  thenS menuClick menuClick open_menu = (open_menu, Normal tt).
Proof. exact (menu_click_twice open_menu open_menu_icon). Defined.

(** X21.  The resize handler closes an open menu in a window wider
    than 768 pixels without touching the spans of the button: the
    menu is closed and the button still shows the cross. *)
Theorem resize_leaves_icon (w : Z) (m : Menu)
    (Hw : (768 < w)%Z) (Ha : active m = true)
    (Hi : icon_shows true (spans m)) :
  exists m', onResize w m = (m', Normal tt)
             /\ active m' = false
             /\ spans m' = spans m
             /\ icon_shows true (spans m')
             /\ ~ icon_shows (active m') (spans m').
Proof.
  unfold onResize. apply Z.ltb_lt in Hw. rewrite Hw, Ha.
  eexists; split; [reflexivity |]. cbn.
  repeat split; [exact Hi |].
  intros (s0 & s1 & s2 & rest & E & H0 & _).
  destruct Hi as (s0' & s1' & s2' & rest' & E' & H0' & _).
  rewrite E in E'. injection E' as <- _ _ _.
  rewrite H0 in H0'. discriminate.
Qed.

Lemma X21_witness_wide_window :
  exists m', onResize 1024 open_menu = (m', Normal tt)
             /\ active m' = false
             /\ spans m' = spans open_menu
             /\ icon_shows true (spans m')
             /\ ~ icon_shows (active m') (spans m').
Proof.
  apply (resize_leaves_icon 1024 open_menu);
    [lia | reflexivity | exact open_menu_icon].
Defined.

(** X22.  When the menu button has fewer than three spans, a click on
    it inverts the state of the menu and then ends on a TypeError. *)
Theorem menu_click_too_few_spans (m : Menu)
    (H3 : (length (spans m) < 3)%nat) :
  exists m', menuClick m = (m', Throw TypeError)
             /\ active m' = negb (active m).
Proof.
  destruct m as [a sp]. cbn [spans active] in *.
  destruct sp as [| s0 [| s1 [| s2 rest]]]; simpl in H3; try lia;
    eexists; (split; [reflexivity |]); reflexivity.
Qed.

Lemma X22_witness_no_span :
  exists m', menuClick bare_menu = (m', Throw TypeError)
             /\ active m' = negb (active bare_menu).
Proof. apply (menu_click_too_few_spans bare_menu). simpl. lia. Defined.

(** ** Debounce *)

Lemma calls_app {A : Type} (es1 es2 : list (debounce_event A)) :
  calls (es1 ++ es2) = calls es1 ++ calls es2.
Proof. unfold calls. apply omap_app. Qed.

Lemma clearTimeout_ok {A : Type} (es : list (debounce_event A)) d :
  debounced_ok es d -> clearTimeout (timeout d) (waiting d) = [].
Proof.
  intros [[E | (id & args & cs & E & T & _)] _]; rewrite E.
  - destruct (timeout d); reflexivity.
  - rewrite T. simpl. rewrite Nat.eqb_refl. reflexivity.
Qed.

Lemma executedFunction_ok {A : Type} (es : list (debounce_event A)) d args :
  debounced_ok es d ->
  debounced_ok (es ++ [Invoke args]) (executedFunction args d).
Proof.
  intros H. pose proof (clearTimeout_ok es d H) as Hc.
  destruct H as [_ Hs].
  split; unfold executedFunction; cbn [waiting timeout invoked];
    rewrite ?Hc, calls_app; cbn.
  - right. exists (next_timer d), args, (calls es). auto.
  - apply sublist_inserts_r. exact Hs.
Qed.

Lemma later_ok {A : Type} (es : list (debounce_event A)) d id :
  debounced_ok es d -> debounced_ok (es ++ [Elapse id]) (later id d).
Proof.
  intros H.
  assert (Hcalls : calls (es ++ [Elapse id]) = calls es).
  { rewrite calls_app. cbn. apply app_nil_r. }
  destruct H as [[E | (i & args & cs & E & T & C & S)] Hs];
    unfold later; rewrite E; cbn [List.find fst].
  - split; rewrite Hcalls; [left; exact E | exact Hs].
  - destruct (Nat.eqb i id) eqn:Hi.
    + split; cbn [waiting timeout invoked List.filter fst]; rewrite Hcalls.
      * left. rewrite Hi. cbn. destruct (timeout d); reflexivity.
      * rewrite C. apply sublist_app; [exact S | reflexivity].
    + split; rewrite Hcalls; [| exact Hs].
      right. exists i, args, cs. auto.
Qed.

Lemma debounce_run_snoc {A : Type} (es : list (debounce_event A)) e :
  debounce_run (es ++ [e]) = debounce_step (debounce_run es) e.
Proof. unfold debounce_run. rewrite foldl_app. reflexivity. Qed.

Lemma debounce_run_ok {A : Type} (es : list (debounce_event A)) :
  debounced_ok es (debounce_run es).
Proof.
  induction es as [| e es IH] using rev_ind.
  - split; [left; reflexivity | reflexivity].
  - rewrite debounce_run_snoc. destruct e as [args | id]; cbn.
    + apply executedFunction_ok, IH.
    + apply later_ok, IH.
Qed.

(** X23.  Whatever the calls of a debounced function and the timers
    that run in between: at most one of its timers is pending, it is
    the one the variable [timeout] names and it carries the arguments
    of the latest call; and the calls of the wrapped function are a
    subsequence of the calls of the debounced one, with the same
    arguments in the same order. *)
Theorem debounce_at_most_one_pending {A : Type}
    (es : list (debounce_event A)) :
  (length (waiting (debounce_run es)) <= 1)%nat
  /\ (forall id args,
        In (id, args) (waiting (debounce_run es)) ->
        timeout (debounce_run es) = Some id
        /\ last (calls es) = Some args)
  /\ sublist (invoked (debounce_run es)) (calls es).
Proof.
  destruct (debounce_run_ok es) as [[E | (i & a & cs & E & T & C & S)] Hs].
  - rewrite E. split; [simpl; lia |]. split; [| exact Hs].
    intros id args [].
  - rewrite E. split; [simpl; lia |]. split; [| exact Hs].
    intros id args [[= <- <-] | []]. split; [exact T |].
    rewrite C. apply last_snoc.
Qed.

Lemma debounce_burst_pending {A : Type} (d : Debounced A) es0
    (bs : list A) (b : A) :
  debounced_ok es0 d ->
  let d' := foldl debounce_step d (Invoke <$> (bs ++ [b])) in
  exists id, waiting d' = [(id, b)] /\ timeout d' = Some id
             /\ invoked d' = invoked d.
Proof.
  revert d es0. induction bs as [| c bs IH]; intros d es0 H; cbn.
  - rewrite (clearTimeout_ok es0 d H). eexists. cbn. auto.
  - destruct (IH (executedFunction c d) (es0 ++ [Invoke c])
                (executedFunction_ok es0 d c H)) as (id & Hw & Ht & Hi).
    exists id. auto.
Qed.

(** X24.  A burst of calls of a debounced function with no timer
    running in between, whatever happened before it, leaves exactly
    one timer pending; when that timer runs, the wrapped function is
    called once, with the arguments of the last call of the burst, and
    no timer stays pending; any other timer does nothing. *)
Theorem debounce_burst {A : Type} (es : list (debounce_event A))
    (bs : list A) (b : A) :
  let d := debounce_run (es ++ (Invoke <$> (bs ++ [b]))) in
  exists id,
    timeout d = Some id
    /\ invoked d = invoked (debounce_run es)
    /\ invoked (later id d) = invoked (debounce_run es) ++ [b]
    /\ waiting (later id d) = []
    /\ forall i, i <> id -> later i d = d.
Proof.
  cbn zeta.
  assert (Hd : debounce_run (es ++ (Invoke <$> (bs ++ [b])))
               = foldl debounce_step (debounce_run es) (Invoke <$> (bs ++ [b])))
    by apply foldl_app.
  rewrite Hd. clear Hd.
  destruct (debounce_burst_pending (debounce_run es) es bs b
              (debounce_run_ok es)) as (id & Hw & Ht & Hi).
  cbn zeta in *.
  set (d := foldl debounce_step (debounce_run es) (Invoke <$> bs ++ [b])) in *.
  exists id. split; [exact Ht |]. split; [exact Hi |].
  unfold later. rewrite Hw. cbn [List.find fst].
  rewrite Nat.eqb_refl. cbn [invoked waiting List.filter fst].
  rewrite ?Nat.eqb_refl, Hi, Ht. cbn. rewrite ?Nat.eqb_refl.
  repeat split.
  intros i Hne. destruct (Nat.eqb id i) eqn:E; [| reflexivity].
  apply Nat.eqb_eq in E. congruence.
Qed.

(** ** Carousel *)

Local Open Scope nat_scope.

Lemma nextSlide_in_range (c : Carousel) :
  (currentSlide c < length (slides c))%nat ->
  nextSlide c
  = ({| currentSlide := (currentSlide c + 1) mod length (slides c);
        slides :=
          <[ (currentSlide c + 1) mod length (slides c) := true ]>
            (<[ currentSlide c := false ]> (slides c)) |},
     Normal tt).
Proof.
  destruct c as [k sl]. cbn [currentSlide slides]. intros H.
  destruct (lookup_lt_is_Some_2 sl k H) as [b Hb].
  assert (Hn : ((k + 1) mod length sl < length (<[ k := false ]> sl))%nat).
  { rewrite length_insert. apply Nat.mod_upper_bound. lia. }
  destruct (lookup_lt_is_Some_2 _ _ Hn) as [b' Hb'].
  unfold nextSlide, thenS, bindS, set_slide. cbn [currentSlide slides].
  rewrite Hb. cbn [currentSlide slides]. rewrite length_insert.
  rewrite Hb'. reflexivity.
Qed.

Lemma tick_in_range (c : Carousel) :
  (currentSlide c < length (slides c))%nat ->
  currentSlide (tick c) = ((currentSlide c + 1) mod length (slides c))%nat
  /\ slides (tick c)
     = <[ (currentSlide c + 1) mod length (slides c) := true ]>
         (<[ currentSlide c := false ]> (slides c))
  /\ length (slides (tick c)) = length (slides c)
  /\ (currentSlide (tick c) < length (slides (tick c)))%nat.
Proof.
  intros H. unfold tick. rewrite (nextSlide_in_range c H).
  cbn [fst currentSlide slides]. rewrite !length_insert.
  repeat split. apply Nat.mod_upper_bound. lia.
Qed.

Lemma ticks_S_r (k : nat) (c : Carousel) :
  ticks (S k) c = tick (ticks k c).
Proof.
  revert c. induction k as [| k IH]; intros c; [reflexivity |].
  change (ticks (S (S k)) c) with (ticks (S k) (tick c)).
  rewrite IH. reflexivity.
Qed.

Lemma ticks_in_range (k : nat) (c : Carousel) :
  (currentSlide c < length (slides c))%nat ->
  currentSlide (ticks k c) = ((currentSlide c + k) mod length (slides c))%nat
  /\ length (slides (ticks k c)) = length (slides c).
Proof.
  intros H. induction k as [| k [IHc IHl]].
  - cbn [ticks]. rewrite Nat.add_0_r, Nat.mod_small by exact H. auto.
  - rewrite ticks_S_r.
    assert (Hk : (currentSlide (ticks k c) < length (slides (ticks k c)))%nat).
    { rewrite IHc, IHl. apply Nat.mod_upper_bound. lia. }
    destruct (tick_in_range _ Hk) as (Hc & _ & Hl & _).
    rewrite Hc, Hl, IHl, IHc. split; [| reflexivity].
    rewrite Nat.Div0.add_mod_idemp_l. f_equal. lia.
Qed.

(** X25.  With the current slide among the slides, every turn of the
    carousel ends normally, keeps the number of slides, and after [k]
    turns the current slide is the one [k] places further, counted
    round the slides.  With no slide at the current index (a page
    without slides) a turn ends on a TypeError and changes nothing. *)
Theorem carousel_cycles (c : Carousel) :
  ((currentSlide c < length (slides c))%nat ->
   forall k,
     snd (nextSlide (ticks k c)) = Normal tt
     /\ currentSlide (ticks k c)
        = ((currentSlide c + k) mod length (slides c))%nat
     /\ length (slides (ticks k c)) = length (slides c))
  /\ ((length (slides c) <= currentSlide c)%nat ->
      nextSlide c = (c, Throw TypeError)).
Proof.
  split.
  - intros H k. destruct (ticks_in_range k c H) as [Hc Hl].
    split; [| auto].
    rewrite nextSlide_in_range; [reflexivity |].
    rewrite Hc, Hl. apply Nat.mod_upper_bound. lia.
  - intros H. unfold nextSlide, thenS, bindS, set_slide.
    rewrite (lookup_ge_None_2 _ _ H). reflexivity.
Qed.

Lemma tick_shows_only (c : Carousel) :
  (currentSlide c < length (slides c))%nat ->
  shows_only (currentSlide c) (slides c) ->
  shows_only (currentSlide (tick c)) (slides (tick c)).
Proof.
  intros H Hs. destruct (tick_in_range c H) as (Hc & Hsl & Hl & _).
  intros j Hj. rewrite Hl in Hj. rewrite Hc, Hsl.
  set (n := ((currentSlide c + 1) mod length (slides c))%nat).
  destruct (decide (j = n)) as [-> | Hn].
  - rewrite list_lookup_insert_eq by (rewrite length_insert; exact Hj).
    rewrite bool_decide_eq_true_2; reflexivity.
  - rewrite list_lookup_insert_ne by congruence.
    rewrite (bool_decide_eq_false_2 _ Hn).
    destruct (decide (j = currentSlide c)) as [-> | Hc'].
    + rewrite list_lookup_insert_eq by exact H. reflexivity.
    + rewrite list_lookup_insert_ne by congruence.
      rewrite (Hs j Hj), (bool_decide_eq_false_2 _ Hc'). reflexivity.
Qed.

Lemma ticks_visited (c : Carousel) (k : nat) :
  (currentSlide c < length (slides c))%nat ->
  ((1 <= k)%nat ->
   slides (ticks k c) !! currentSlide (ticks k c) = Some true)
  /\ (forall i, (i < k)%nat ->
        ((currentSlide c + i) mod length (slides c))%nat
        <> currentSlide (ticks k c) ->
        slides (ticks k c) !! ((currentSlide c + i) mod length (slides c))%nat
        = Some false).
Proof.
  intros H. induction k as [| k [_ IH]].
  - split; [lia |]. intros i Hi. lia.
  - rewrite ticks_S_r.
    destruct (ticks_in_range k c H) as [Hc Hl].
    assert (Hk : (currentSlide (ticks k c) < length (slides (ticks k c)))%nat).
    { rewrite Hc, Hl. apply Nat.mod_upper_bound. lia. }
    destruct (tick_in_range _ Hk) as (Hc' & Hsl & Hl' & Hr).
    split.
    + intros _. rewrite Hsl, <- Hc'.
      apply list_lookup_insert_eq. rewrite length_insert, <- Hl'. exact Hr.
    + intros i Hi Hne. rewrite Hsl. rewrite Hc' in Hne.
      rewrite list_lookup_insert_ne by congruence.
      destruct (decide (((currentSlide c + i) mod length (slides c))%nat
                        = currentSlide (ticks k c))) as [E | E].
      * rewrite E. apply list_lookup_insert_eq. exact Hk.
      * rewrite list_lookup_insert_ne by congruence.
        apply IH; [| exact E].
        destruct (decide (i = k)) as [-> | Hik]; [| lia].
        exfalso. apply E. symmetry. exact Hc.
Qed.

(** X26.  With the current slide among the slides: when the current
    slide and no other is active, every turn of the carousel keeps it
    so; and whatever slides the page marks active at first, after as
    many turns as there are slides, and from then on, the current
    slide and no other is active. *)
Theorem carousel_one_active (c : Carousel)
    (H : (currentSlide c < length (slides c))%nat) :
  (shows_only (currentSlide c) (slides c) ->
   forall k, shows_only (currentSlide (ticks k c)) (slides (ticks k c)))
  /\ (forall k, (length (slides c) <= k)%nat ->
        shows_only (currentSlide (ticks k c)) (slides (ticks k c))).
Proof.
  split.
  - intros Hs k. induction k as [| k IH]; [exact Hs |].
    rewrite ticks_S_r. apply tick_shows_only; [| exact IH].
    destruct (ticks_in_range k c H) as [Hc Hl].
    rewrite Hc, Hl. apply Nat.mod_upper_bound. lia.
  - intros k Hk j Hj.
    destruct (ticks_in_range k c H) as [Hc Hl]. rewrite Hl in Hj.
    destruct (ticks_visited c k H) as [Ht Hf].
    destruct (decide (j = currentSlide (ticks k c))) as [-> | Hne].
    + rewrite bool_decide_eq_true_2 by reflexivity. apply Ht. lia.
    + rewrite (bool_decide_eq_false_2 _ Hne).
      set (n := length (slides c)) in *.
      set (i := ((j + n - currentSlide c) mod n)%nat).
      assert (Hi : (i < k)%nat).
      { assert (i < n)%nat by (apply Nat.mod_upper_bound; lia). lia. }
      assert (Hj' : ((currentSlide c + i) mod n)%nat = j).
      { unfold i. rewrite Nat.Div0.add_mod_idemp_r.
        replace (currentSlide c + (j + n - currentSlide c))%nat
          with (j + 1 * n)%nat by lia.
        rewrite Nat.Div0.mod_add. apply Nat.mod_small. exact Hj. }
      specialize (Hf i Hi). rewrite Hj' in Hf. apply Hf. exact Hne.
Qed.

Lemma X26_witness_two_active :
  (currentSlide two_active_carousel < length (slides two_active_carousel))
  /\ shows_only (currentSlide (ticks 3 two_active_carousel))
                (slides (ticks 3 two_active_carousel)).
Proof.
  assert (H : currentSlide two_active_carousel
              < length (slides two_active_carousel)) by (simpl; lia).
  split; [exact H |].
  apply (carousel_one_active two_active_carousel H). simpl. lia.
Defined.

Local Close Scope nat_scope.

(** ** The address that the carousel preloads *)

Lemma slice_5_m2 (s : jsstring) :
  preload_url s = take (length s - 7) (drop 5 s).
Proof.
  unfold preload_url, slice. cbn zeta.
  change (5 <? 0)%Z with false. change (-2 <? 0)%Z with true. cbn match.
  destruct (Nat.le_gt_cases (length s) 5) as [Hle | Hgt].
  - rewrite (drop_ge s 5) by exact Hle.
    rewrite drop_ge by lia. rewrite !take_nil. reflexivity.
  - rewrite Z.min_l by lia. f_equal. lia.
Qed.

(** X27.  From the serialised background image [url("u")] the
    carousel preloads exactly [u]; from a background image of at most
    seven code units, such as the empty string of a slide without
    inline background or [none], it preloads the empty address. *)
Theorem preload_url_extracts :
  (forall u, preload_url (js "url(" ++ [quote] ++ u ++ [quote] ++ js ")") = u)
  /\ (forall s, (length s <= 7)%nat -> preload_url s = []).
Proof.
  split.
  - intros u. rewrite slice_5_m2.
    change (js "url(" ++ [quote] ++ u ++ [quote] ++ js ")")
      with (js "url(" ++ [quote] ++ (u ++ [quote] ++ js ")")).
    rewrite !length_app. cbn [length js].
    change (drop 5 (js "url(" ++ [quote] ++ u ++ [quote] ++ js ")"))
      with (u ++ [quote] ++ js ")").
    replace (length (js "url(") + (1 + (length u + (1 + length (js ")")))) - 7)%nat
      with (length u) by (cbn; lia).
    apply take_app_length.
  - intros s Hs. rewrite slice_5_m2.
    replace (length s - 7)%nat with 0%nat by lia. reflexivity.
Qed.

(** ** Newsletter form *)

Lemma closable_msg_subscribed v : closable v msg_subscribed = true.
Proof. apply closable_plain. reflexivity. Qed.

Lemma newsletterSubmit_run v n input b :
  email_input (nl_form n) = Some input ->
  nl_button n = Some b ->
  newsletterSubmit v n
  = ({| nl_form := nl_form n;
        nl_button :=
          Some {| nl_innerHTML := check_mark;
                  nl_background := green_gradient |};
        nl_restores := nl_restores n ++ [nl_innerHTML b];
        nl_page := fst (showNotification v msg_subscribed success (nl_page n)) |},
     Normal tt).
Proof.
  intros He Hb. unfold newsletterSubmit. rewrite He, Hb.
  rewrite showNotification_run, closable_msg_subscribed. reflexivity.
Qed.



(** X29.  Two submissions of the newsletter form before the timer of
    the first has run leave the check mark on the button for good:
    the second listener saves the check mark as the markup to
    restore, and once both timers have run the button shows the check
    mark, with no inline background, and no timer is pending. *)
Theorem newsletter_double_submit (v : variant) (n : Newsletter)
    (input : Field) (b : NlButton)
    (He : email_input (nl_form n) = Some input)
    (Hb : nl_button n = Some b)
    (Hr : nl_restores n = []) :
  exists n1 n2,
    newsletterSubmit v n = (n1, Normal tt)
    /\ newsletterSubmit v n1 = (n2, Normal tt)
    /\ nl_button (newsletterTimer n2)
       = Some {| nl_innerHTML := nl_innerHTML b; nl_background := [] |}
    /\ nl_button (newsletterTimer (newsletterTimer n2))
       = Some {| nl_innerHTML := check_mark; nl_background := [] |}
    /\ nl_restores (newsletterTimer (newsletterTimer n2)) = [].
Proof.
  rewrite (newsletterSubmit_run v n input b He Hb).
  eexists _, _. split; [reflexivity |].
  split; [apply (newsletterSubmit_run v _ input); [exact He | reflexivity] |].
  unfold newsletterTimer. cbn [nl_form nl_button nl_restores nl_page].
  rewrite Hr. cbn. auto.
Qed.

Lemma X29_witness_two_clicks :
  exists n1 n2,
    newsletterSubmit PageFeedback newsletter_sample = (n1, Normal tt)
    /\ newsletterSubmit PageFeedback n1 = (n2, Normal tt)
    /\ nl_button (newsletterTimer (newsletterTimer n2))
       = Some {| nl_innerHTML := check_mark; nl_background := [] |}.
Proof.
  destruct (newsletter_double_submit PageFeedback newsletter_sample
              (text_field "email" "email" "not an address" true)
              {| nl_innerHTML := js "Suscribirse"; nl_background := [] |}
              eq_refl eq_refl eq_refl)
    as (n1 & n2 & H1 & H2 & _ & H3 & _).
  exists n1, n2. auto.
Defined.
